(** * Fingertip detection on a hand silhouette: the detection scripts, embedded

    The repository holds several Python scripts that look for extended
    fingers on the silhouette of a hand:

    - [detect_fingers_peaks.py]: radial distance profile around the contour,
      smoothed, then [scipy.signal.find_peaks];
    - [detect_fingers_polar.py]: convex-hull vertices clustered by angle
      around the palm centre;
    - [detect_fingers_v1.py]: convexity defects, counted by angle and depth.

    Conventions of the embedding.

    - Python [int] values and pixel coordinates are [Z]; list positions are
      [nat].  Where a script computes on [np.int32] scalars (the squares of
      [detect_fingers_v1.py]) the wrap-around modulo [2^32] is written out.
    - Every floating-point value is the rational number it denotes ([Q]) and
      arithmetic on it is exact: the rounding of the last bit of a binary64
      operation is not part of the embedding.  Decimal literals ([1.4],
      [0.3], ...) are the decimal they are written as, [math.pi] is the
      double it evaluates to.  The convexity-defect script needs [sqrt] and
      [arccos]; there the values are real numbers ([R]) and [nan] is [None].
    - Calls into OpenCV that work on pixels ([findContours], [morphologyEx],
      [distanceTransform], ...) and the two numeric primitives
      [np.linalg.norm] and [math.atan2] are fields of the record [cv2]; the
      scripts are functions of such a record.
    - [np.pad], [np.convolve] and [scipy.signal.find_peaks] are given as
      executable functions following the documented behaviour of these
      libraries. *)

From Stdlib Require Import List Bool Arith ZArith QArith Qabs Qround Qminmax Lia.
From Stdlib Require Import Permutation Sorted.
From Stdlib Require Import Reals Psatz.
Import ListNotations.

Set Implicit Arguments.

(* ================================================================== *)
(** * Part I: definitions *)
(* ================================================================== *)

(** ** Points and scalar helpers *)

Definition point : Type := (Z * Z)%type.

(** [pt[0]] and [pt[1]]. *)
Definition px (p : point) : Z := fst p.
Definition py (p : point) : Z := snd p.

(** [p - np.array([cx, cy])]. *)
Definition vsub (p c : point) : point := ((px p - px c)%Z, (py p - py c)%Z).

(** Strict comparison of two floats. *)
Definition Qlt_bool (x y : Q) : bool := negb (Qle_bool y x).

(** An integer used in float arithmetic. *)
Definition ofZ (z : Z) : Q := inject_Z z.

(** ** Python built-ins: [list.sort] and [max] *)

Section PySort.
Context {A : Type}.

(** [le a b] stands for [key(a) <= key(b)] (or the converse under
    [reverse=True]).  [list.sort] is stable: elements with equal keys keep
    their original order, also with [reverse=True]. *)
Variable le : A -> A -> bool.

Fixpoint insert_sorted (x : A) (l : list A) : list A :=
  match l with
  | [] => [x]
  | y :: l' => if le x y then x :: l else y :: insert_sorted x l'
  end.

Fixpoint py_sort (l : list A) : list A :=
  match l with
  | [] => []
  | x :: l' => insert_sorted x (py_sort l')
  end.

End PySort.

(** [l.sort(key=key)] with a float key. *)
Definition sort_by_key {A} (key : A -> Q) : list A -> list A :=
  py_sort (fun a b => Qle_bool (key a) (key b)).

(** [l.sort(key=key, reverse=True)] with a float key. *)
Definition sort_by_key_desc {A} (key : A -> Q) : list A -> list A :=
  py_sort (fun a b => Qle_bool (key b) (key a)).

(** [max(x :: l, key=key)]: the first element whose key is maximal. *)
Fixpoint max_by {A} (key : A -> Q) (x : A) (l : list A) : A :=
  match l with
  | [] => x
  | y :: l' => max_by key (if Qlt_bool (key x) (key y) then y else x) l'
  end.

(** ** Images, masks and the OpenCV interface *)

(** A single-channel 8-bit image, row by row. *)
Definition plane : Type := list (list Z).

(** What [cv2.imread(..., IMREAD_UNCHANGED)] delivers, as far as the scripts
    look at it: an image with an alpha plane, or one without, of which only
    the grey-level plane ([cvtColor(..., COLOR_BGR2GRAY)]) is used. *)
Inductive image : Type :=
| WithAlpha (alpha : plane)
| Opaque (gray : plane).

Definition contour : Type := list point.

Record cv2 : Type := {
  (** the level chosen by [THRESH_OTSU] *)
  otsu_level : plane -> Z;
  (** [morphologyEx(mask, MORPH_OPEN, ones((5,5)))] *)
  morph_open : plane -> plane;
  (** [findContours(mask, RETR_EXTERNAL, ...)] *)
  findContours : plane -> list contour;
  contourArea : contour -> Q;
  (** [minMaxLoc(distanceTransform(mask, DIST_L2, 5))]: [(max_loc, max_dist)] *)
  palm_of : plane -> point * Q;
  (** [convexHull(cnt, returnPoints=True)] *)
  convexHull : contour -> option (list point);
  (** [np.linalg.norm] of an integer vector *)
  norm : point -> Q;
  (** [math.atan2(y, x)] on integers *)
  atan2 : Z -> Z -> Q
}.

(** [cv2.threshold(src, t, 255, THRESH_BINARY)]. *)
Definition threshold_binary (t : Z) (src : plane) : plane :=
  map (map (fun v => if (v >? t)%Z then 255%Z else 0%Z)) src.

(** [cv2.bitwise_not] on 8-bit pixels. *)
Definition bitwise_not (m : plane) : plane :=
  map (map (fun v => (255 - v)%Z)) m.

(** [mask[0,0]], [mask[-1,-1]] and the two other corners. *)
Definition top_left (m : plane) : Z := hd 0%Z (hd [] m).
Definition bottom_right (m : plane) : Z := last (last m []) 0%Z.
Definition top_right (m : plane) : Z := last (hd [] m) 0%Z.
Definition bottom_left (m : plane) : Z := hd 0%Z (last m []).

(** Lines 31-32 of [detect_fingers_peaks.py] (the same test is in
    [detect_fingers_polar.py] and [detect_fingers_v2.py]). *)
Definition fix_polarity (mask : plane) : plane :=
  if ((top_left mask =? 255)%Z && (bottom_right mask =? 255)%Z)%bool
  then bitwise_not mask
  else mask.

(** All four corners are foreground. *)
Definition four_corners_foreground (m : plane) : bool :=
  ((top_left m =? 255)%Z && (top_right m =? 255)%Z &&
   (bottom_left m =? 255)%Z && (bottom_right m =? 255)%Z)%bool.

(** The binarisation shared by the three scripts. *)
Definition silhouette (cv : cv2) (img : image) : plane :=
  match img with
  | WithAlpha alpha => threshold_binary 127 alpha
  | Opaque gray => fix_polarity (threshold_binary (otsu_level cv gray) gray)
  end.

(** No pixel of the mask is foreground. *)
Definition blank (m : plane) : Prop :=
  forall row v, In row m -> In v row -> v = 0%Z.

(** How a run of a script ends. *)
Inductive exn : Type :=
| ValueError.

Inductive outcome (A : Type) : Type :=
| ImageUnreadable            (** [img is None] *)
| NoContoursFound            (** [not contours] *)
| NoHull                     (** [hull is None] *)
| Raised (e : exn)           (** an exception leaves the function *)
| Detected (fingers : A).    (** the annotated image is written *)

Arguments ImageUnreadable {A}.
Arguments NoContoursFound {A}.
Arguments NoHull {A}.
Arguments Raised {A} e.
Arguments Detected {A} fingers.

(** ** numpy: [np.pad(..., mode='wrap')] and [np.convolve(..., mode='valid')] *)

Fixpoint qsum (l : list Q) : Q :=
  match l with
  | [] => 0
  | v :: l' => v + qsum l'
  end.

(** The first [k] values of [l] repeated over and over. *)
Definition cycle_prefix (k : nat) (l : list Q) : list Q :=
  firstn k (concat (repeat l k)).

(** The last [k] values of [l] repeated over and over. *)
Definition cycle_suffix (k : nat) (l : list Q) : list Q :=
  rev (cycle_prefix k (rev l)).

(** [np.pad(l, (before, after), mode='wrap')]: the end of the vector pads the
    beginning and the beginning pads the end. *)
Definition np_pad_wrap (before after : nat) (l : list Q) : list Q :=
  cycle_suffix before l ++ l ++ cycle_prefix after l.

Definition dot (u w : list Q) : Q :=
  qsum (map (fun p => fst p * snd p) (combine u w)).

(** Sliding product of [a] with the (already reversed) kernel [w]. *)
Definition correlate (a w : list Q) : list Q :=
  map (fun i => dot (firstn (length w) (skipn i a)) w)
      (seq 0 (length a - length w + 1)).

(** [np.convolve(a, v, mode='valid')]; numpy swaps the arguments when [v] is
    the longer one. *)
Definition np_convolve_valid (a v : list Q) : list Q :=
  if (length a <? length v)%nat then correlate v (rev a) else correlate a (rev v).

(** ** scipy: [scipy.signal.find_peaks(x, height=h, distance=d)] *)

(** Inner loop of [_local_maxima_1d]:
    [while i_ahead < i_max and x[i_ahead] == x[i]: i_ahead += 1]. *)
Fixpoint skip_plateau (x : list Q) (xi : Q) (i_max i_ahead fuel : nat) : nat :=
  match fuel with
  | O => i_ahead
  | S fuel' =>
      if ((i_ahead <? i_max)%nat && Qeq_bool (nth i_ahead x 0) xi)%bool
      then skip_plateau x xi i_max (S i_ahead) fuel'
      else i_ahead
  end.

(** Outer loop of [_local_maxima_1d], from position [i] on; the result lists
    the midpoints of the plateaus that are local maxima. *)
Fixpoint local_maxima_from (x : list Q) (i_max i fuel : nat) : list nat :=
  match fuel with
  | O => []
  | S fuel' =>
      if (i <? i_max)%nat then
        if Qlt_bool (nth (i - 1) x 0) (nth i x 0) then
          let i_ahead := skip_plateau x (nth i x 0) i_max (i + 1) (length x) in
          if Qlt_bool (nth i_ahead x 0) (nth i x 0) then
            ((i + (i_ahead - 1)) / 2)%nat
              :: local_maxima_from x i_max (i_ahead + 1) fuel'
          else local_maxima_from x i_max (i + 1) fuel'
        else local_maxima_from x i_max (i + 1) fuel'
      else []
  end.

Definition local_maxima_1d (x : list Q) : list nat :=
  local_maxima_from x (length x - 1) 1 (length x).

(** [_select_by_property] with a lower bound only. *)
Definition select_by_height (x : list Q) (hmin : Q) (peaks : list nat) : list nat :=
  filter (fun p => Qle_bool hmin (nth p x 0)) peaks.

(** [keep[k] = 0]. *)
Fixpoint clear_flag (k : nat) (keep : list bool) : list bool :=
  match keep, k with
  | [], _ => []
  | _ :: keep', O => false :: keep'
  | b :: keep', S k' => b :: clear_flag k' keep'
  end.

(** [k = j - 1; while 0 <= k and peaks[j] - peaks[k] < distance_: ...];
    the argument is [k + 1]. *)
Fixpoint flag_earlier (peaks : list nat) (pj : nat) (distance_ : Z)
         (k1 : nat) (keep : list bool) : list bool :=
  match k1 with
  | O => keep
  | S k =>
      if (Z.of_nat pj - Z.of_nat (nth k peaks O) <? distance_)%Z
      then flag_earlier peaks pj distance_ k (clear_flag k keep)
      else keep
  end.

(** [k = j + 1; while k < peaks_size and peaks[k] - peaks[j] < distance_: ...]. *)
Fixpoint flag_later (peaks : list nat) (pj : nat) (distance_ : Z)
         (k fuel : nat) (keep : list bool) : list bool :=
  match fuel with
  | O => keep
  | S fuel' =>
      if ((k <? length peaks)%nat &&
          (Z.of_nat (nth k peaks O) - Z.of_nat pj <? distance_)%Z)%bool
      then flag_later peaks pj distance_ (S k) fuel' (clear_flag k keep)
      else keep
  end.

(** One round of the main loop of [_select_by_peak_distance], for the peak
    at position [j] of [peaks]. *)
Definition visit_peak (peaks : list nat) (distance_ : Z)
           (keep : list bool) (j : nat) : list bool :=
  if nth j keep false then
    flag_later peaks (nth j peaks O) distance_ (j + 1) (length peaks)
      (flag_earlier peaks (nth j peaks O) distance_ j keep)
  else keep.

(** [np.argsort(priority)].  numpy leaves the order of equal priorities
    open; here they keep their order.  What is proved below about the
    selection holds for every order of visit. *)
Definition argsort (priority : list Q) : list nat :=
  py_sort (fun a b => Qle_bool (nth a priority 0) (nth b priority 0))
          (seq 0 (length priority)).

(** The flags computed by [_select_by_peak_distance]: peaks are visited from
    the highest priority down. *)
Definition keep_flags (peaks : list nat) (priority : list Q) (distance : Q)
  : list bool :=
  fold_left (visit_peak peaks (Qceiling distance))
            (rev (argsort priority))
            (repeat true (length peaks)).

(** [peaks[keep]]. *)
Definition select_flagged (peaks : list nat) (keep : list bool) : list nat :=
  map fst (filter snd (combine peaks keep)).

Definition select_by_peak_distance (x : list Q) (distance : Q)
           (peaks : list nat) : list nat :=
  select_flagged peaks
    (keep_flags peaks (map (fun p => nth p x 0) peaks) distance).

(** [find_peaks(x, height=h, distance=d)]; [None] is the [ValueError] raised
    when [d < 1]. *)
Definition find_peaks (x : list Q) (height distance : Q) : option (list nat) :=
  if Qlt_bool distance 1 then None
  else Some (select_by_peak_distance x distance
               (select_by_height x height (local_maxima_1d x))).

(** ** [detect_fingers_peaks.py] *)

Definition window_size : nat := 21.

(** Lines 52-58: the distance curve and its smoothing. *)
Definition smooth (distances : list Q) : list Q :=
  np_convolve_valid
    (np_pad_wrap (window_size / 2) (window_size / 2) distances)
    (repeat (1 # 21) window_size).

(** Lines 69-74: the vertical filter on the peaks. *)
Definition below_palm_line (cy : Z) (palm_radius : Q) (p : point) : bool :=
  Qlt_bool (ofZ (py p)) (ofZ cy + palm_radius).

(** Lines 77-80: keep the five farthest when more than five are left. *)
Definition keep_farthest (nrm : point -> Q) (c : point) (fingers : list point)
  : list point :=
  if (5 <? length fingers)%nat
  then firstn 5 (sort_by_key_desc (fun p => nrm (vsub p c)) fingers)
  else fingers.

(** Line 83: number the fingers from left to right. *)
Definition order_by_x (fingers : list point) : list point :=
  py_sort (fun a b => (px a <=? px b)%Z) fingers.

(** Lines 50-65: the positions of the contour that [find_peaks] reports;
    [None] when it raises [ValueError]. *)
Definition radial_peaks (nrm : point -> Q) (points : contour)
           (c : point) (palm_radius : Q) : option (list nat) :=
  let distances := map (fun p => nrm (vsub p c)) points in
  let distances_smooth := smooth distances in
  let min_peak_dist_indices := Z.of_nat (length points) # 20 in
  find_peaks distances_smooth (palm_radius * (14 # 10)) min_peak_dist_indices.

(** Lines 67-74: the peaks that pass the vertical filter. *)
Definition filtered_peaks (points : contour) (c : point) (palm_radius : Q)
           (peaks : list nat) : list point :=
  filter (below_palm_line (py c) palm_radius)
         (map (fun p_idx => nth p_idx points (0, 0)%Z) peaks).

(** Lines 50-83, from the contour and the palm circle to the fingers. *)
Definition radial_peak_fingers (nrm : point -> Q) (points : contour)
           (c : point) (palm_radius : Q) : option (list point) :=
  match radial_peaks nrm points c palm_radius with
  | None => None
  | Some peaks =>
      let final_fingers := filtered_peaks points c palm_radius peaks in
      Some (order_by_x (keep_farthest nrm c final_fingers))
  end.

Definition detect_fingers_peaks (cv : cv2) (img : option image)
  : outcome (list point) :=
  match img with
  | None => ImageUnreadable
  | Some im =>
      let mask := morph_open cv (silhouette cv im) in
      match findContours cv mask with
      | [] => NoContoursFound
      | c0 :: cs =>
          let max_cnt := max_by (contourArea cv) c0 cs in
          let '(c, palm_radius) := palm_of cv mask in
          match radial_peak_fingers (norm cv) max_cnt c palm_radius with
          | None => Raised ValueError
          | Some fingers => Detected fingers
          end
      end
  end.

(** ** [detect_fingers_polar.py] *)

Record candidate : Type := {
  pt : point;
  angle : Q;
  dist : Q
}.

(** [math.pi]. *)
Definition math_pi : Q := 884279719003555 # 281474976710656.

Definition angle_thresh : Q := 3 # 10.

(** Lines 53-60: hull points far enough from the palm centre and not too far
    below it become candidates. *)
Definition collect_candidates (nrm : point -> Q) (atn2 : Z -> Z -> Q)
           (points : list point) (c : point) (palm_radius : Q)
  : list candidate :=
  let distance_threshold := palm_radius * (3 # 2) in
  flat_map
    (fun p =>
       let d := nrm (vsub p c) in
       if Qlt_bool distance_threshold d then
         if Qlt_bool (ofZ (py p)) (ofZ (py c) + palm_radius * (1 # 2)) then
           [ {| pt := p;
                angle := atn2 (py p - py c)%Z (px p - px c)%Z;
                dist := d |} ]
         else []
       else [])
    points.

(** Lines 76-81: the gap between two consecutive angles. *)
Definition angular_gap (prev cur : Q) : Q :=
  let diff := cur - prev in
  let diff := if Qlt_bool diff (- math_pi) then diff + 2 * math_pi else diff in
  let diff := if Qlt_bool math_pi diff then diff - 2 * math_pi else diff in
  Qabs diff.

(** [merged_fingers.append(max(current_cluster, key=dist))]. *)
Definition flush (current_cluster merged_fingers : list candidate)
  : list candidate :=
  match current_cluster with
  | [] => merged_fingers
  | x :: l => merged_fingers ++ [max_by dist x l]
  end.

(** Lines 75-92: the walk over [candidates[1:]]; [prev] is [candidates[i-1]]. *)
Fixpoint cluster_walk (prev : candidate) (rest : list candidate)
         (current_cluster merged_fingers : list candidate) : list candidate :=
  match rest with
  | [] => flush current_cluster merged_fingers
  | cur :: rest' =>
      if Qlt_bool (angular_gap (angle prev) (angle cur)) angle_thresh
      then cluster_walk cur rest' (current_cluster ++ [cur]) merged_fingers
      else cluster_walk cur rest' [cur] (flush current_cluster merged_fingers)
  end.

(** Lines 63-92. *)
Definition merge_by_angle (candidates : list candidate) : list candidate :=
  match sort_by_key angle candidates with
  | [] => []
  | c0 :: rest => cluster_walk c0 rest [c0] []
  end.

(** Lines 48-92, from the hull and the palm circle to the fingers. *)
Definition hull_cluster_fingers (nrm : point -> Q) (atn2 : Z -> Z -> Q)
           (hull : list point) (c : point) (palm_radius : Q)
  : list candidate :=
  merge_by_angle (collect_candidates nrm atn2 hull c palm_radius).

Definition detect_fingers_polar (cv : cv2) (img : option image)
  : outcome (list candidate) :=
  match img with
  | None => ImageUnreadable
  | Some im =>
      let mask := morph_open cv (silhouette cv im) in
      match findContours cv mask with
      | [] => NoContoursFound
      | c0 :: cs =>
          let max_cnt := max_by (contourArea cv) c0 cs in
          let '(c, palm_radius) := palm_of cv mask in
          match convexHull cv max_cnt with
          | None => NoHull
          | Some hull =>
              Detected (hull_cluster_fingers (norm cv) (atan2 cv) hull c palm_radius)
          end
      end
  end.

(** The clusters the walk goes through, in order: the same walk, recording
    each cluster instead of its farthest member. *)
Fixpoint clusters_walk (prev : candidate) (rest : list candidate)
         (current_cluster : list candidate) : list (list candidate) :=
  match rest with
  | [] => [current_cluster]
  | cur :: rest' =>
      if Qlt_bool (angular_gap (angle prev) (angle cur)) angle_thresh
      then clusters_walk cur rest' (current_cluster ++ [cur])
      else current_cluster :: clusters_walk cur rest' [cur]
  end.

Definition clusters (candidates : list candidate) : list (list candidate) :=
  match sort_by_key angle candidates with
  | [] => []
  | c0 :: rest => clusters_walk c0 rest [c0]
  end.

(** The farthest member of a cluster, as [max] picks it. *)
Definition farthest (cluster : list candidate) : option candidate :=
  match cluster with
  | [] => None
  | x :: l => Some (max_by dist x l)
  end.

(** The gap between two directions measured around the circle, whichever
    way is shorter; both angles are results of [atan2], between [-pi] and
    [pi]. *)
Definition circular_gap (a b : Q) : Q :=
  Qmin (Qabs (a - b)) (2 * math_pi - Qabs (a - b)).

(** ** Sample data *)

(** Values of [math.atan2] and [np.linalg.norm] on the integer vectors of the
    samples below, as the doubles Python computes. *)
Definition atan2_table : list ((Z * Z) * Q) :=
  [ ((1, -100)%Z,   7051720504446493 # 2251799813685248);
    ((-1, -100)%Z,  - (7051720504446493 # 2251799813685248));
    ((-100, 0)%Z,   - (884279719003555 # 562949953421312));
    ((0, -100)%Z,   884279719003555 # 281474976710656);
    ((-60, -80)%Z,  - (175787564848171 # 70368744177664));
    ((-96, -28)%Z,  - (8352332796509007 # 4503599627370496));
    ((-96, 28)%Z,   - (5796142707547873 # 4503599627370496));
    ((-60, 80)%Z,   - (5796142707547873 # 9007199254740992));
    ((0, 100)%Z,    0) ].

Definition norm_table : list ((Z * Z) * Q) :=
  [ ((-100, 1)%Z,   7037226252691635 # 70368744177664);
    ((-100, -1)%Z,  7037226252691635 # 70368744177664);
    ((0, -100)%Z,   100);
    ((-100, 0)%Z,   100);
    ((-80, -60)%Z,  100);
    ((-28, -96)%Z,  100);
    ((28, -96)%Z,   100);
    ((80, -60)%Z,   100);
    ((100, 0)%Z,    100);
    ((100, 60)%Z,   4103167622006341 # 35184372088832);
    ((-100, 60)%Z,  4103167622006341 # 35184372088832);
    ((100, 30)%Z,   1836678144654817 # 17592186044416);
    ((0, 90)%Z,     90) ].

Fixpoint lookup (t : list ((Z * Z) * Q)) (k : Z * Z) : Q :=
  match t with
  | [] => 0
  | (k', v) :: t' =>
      if ((fst k =? fst k')%Z && (snd k =? snd k')%Z)%bool then v else lookup t' k
  end.

Definition sample_atan2 (y x : Z) : Q := lookup atan2_table (y, x).
Definition sample_norm (v : point) : Q := lookup norm_table v.

(** Six hull vertices on a circle of radius 100 around (200, 200), and two
    below the palm. *)
Definition six_tips : list point :=
  [ (100, 200); (120, 140); (172, 104); (228, 104); (280, 140); (300, 200);
    (300, 260); (100, 260) ]%Z.

(** The hull of a hand with one finger pointing left, its blunt tip ending in
    two vertices just below and just above the horizontal line through the
    palm centre (200, 200), one finger pointing straight up, and two vertices
    on the wrist side. *)
Definition seam_hull : list point :=
  [ (100, 199); (200, 100); (300, 230); (200, 290); (100, 201) ]%Z.

(** ** [detect_fingers_v1.py]: convexity defects *)

(** A row [s, e, f, d] of [cv2.convexityDefects]: three positions in the
    contour and the depth, in units of 1/256 pixel. *)
Record defect : Type := {
  d_start : nat;
  d_end : nat;
  d_far : nat;
  d_depth : Z
}.

(** The coordinates of a contour point are [np.int32] scalars, and so are
    their differences, the squares [x**2] and the sums of them: each wraps
    around modulo [2^32]. *)
Definition wrap32 (z : Z) : Z :=
  ((z + 2147483648) mod 4294967296 - 2147483648)%Z.

(** [(q[0] - p[0])**2 + (q[1] - p[1])**2], on [np.int32]. *)
Definition sq_dist (p q : point) : Z :=
  wrap32 (wrap32 (wrap32 (px q - px p) ^ 2)
          + wrap32 (wrap32 (py q - py p) ^ 2)).

(** Lines 68-70: a side of the triangle.  [None] is [nan], which [np.sqrt]
    gives for a negative argument; from here on the numbers are floats, and
    an operation on [nan] gives [nan]. *)
Definition side (p q : point) : option R :=
  if (sq_dist p q <? 0)%Z then None else Some (sqrt (IZR (sq_dist p q))).

(** Line 73: the divisor [2*b*c] and the dividend [b**2 + c**2 - a**2]. *)
Definition divisor (start end_ far : point) : option R :=
  match side start far, side far end_ with
  | Some b, Some c => Some (2 * b * c)%R
  | _, _ => None
  end.

Definition dividend (start end_ far : point) : option R :=
  match side start end_, side start far, side far end_ with
  | Some a, Some b, Some c => Some (b ^ 2 + c ^ 2 - a ^ 2)%R
  | _, _, _ => None
  end.

(** The quotient handed to [arccos].  A division by zero gives [nan] or an
    infinity, and [arccos] turns either into [nan]: both are [None] here. *)
Definition cosine (start end_ far : point) : option R :=
  match dividend start end_ far, divisor start end_ far with
  | Some n, Some y => if Req_dec_T y 0 then None else Some (n / y)%R
  | _, _ => None
  end.

(** [np.arccos]: [nan] outside [[-1, 1]]. *)
Definition np_arccos (x : option R) : option R :=
  match x with
  | Some t =>
      if Rle_dec (-1) t then if Rle_dec t 1 then Some (acos t) else None
      else None
  | None => None
  end.

(** Line 73: the angle in degrees. *)
Definition defect_angle (start end_ far : point) : option R :=
  match np_arccos (cosine start end_ far) with
  | Some t => Some (t * 57.2957795)%R
  | None => None
  end.

(** Line 77: [angle <= 90 and d > 3000]; a comparison with [nan] is false. *)
Definition is_valley (start end_ far : point) (d : Z) : bool :=
  match defect_angle start end_ far with
  | None => false
  | Some a => if Rle_dec a 90 then (d >? 3000)%Z else false
  end.

(** Lines 61-79, the loop over the rows of [defects]; [None] is the
    [IndexError] of a position outside the contour. *)
Fixpoint count_valleys (max_contour : contour) (defects : list defect)
         (defect_count : nat) : option nat :=
  match defects with
  | [] => Some defect_count
  | r :: defects' =>
      match nth_error max_contour (d_start r),
            nth_error max_contour (d_end r),
            nth_error max_contour (d_far r) with
      | Some start, Some end_, Some far =>
          count_valleys max_contour defects'
            (if is_valley start end_ far (d_depth r)
             then S defect_count else defect_count)
      | _, _, _ => None
      end
  end.

(** Lines 55-83: [estimated_fingers]; [defects is None] skips the loop. *)
Definition estimated_fingers (max_contour : contour)
           (defects : option (list defect)) : option nat :=
  match defects with
  | None => Some (0 + 1)%nat
  | Some rows =>
      match count_valleys max_contour rows 0 with
      | None => None
      | Some defect_count => Some (defect_count + 1)%nat
      end
  end.

(** The rows of [defects] that line 77 accepts. *)
Definition qualifies (max_contour : contour) (r : defect) : bool :=
  match nth_error max_contour (d_start r),
        nth_error max_contour (d_end r),
        nth_error max_contour (d_far r) with
  | Some start, Some end_, Some far => is_valley start end_ far (d_depth r)
  | _, _, _ => false
  end.

(** Every position of a row lies inside the contour. *)
Definition row_in_range (max_contour : contour) (r : defect) : Prop :=
  (d_start r < length max_contour)%nat /\
  (d_end r < length max_contour)%nat /\
  (d_far r < length max_contour)%nat.

(** ** The triangle of a defect, in exact arithmetic *)

(** The square of the Euclidean distance of two points, and the distance. *)
Definition sq_len (p q : point) : Z :=
  ((px q - px p) ^ 2 + (py q - py p) ^ 2)%Z.

Definition len (p q : point) : R := sqrt (IZR (sq_len p q)).

(** Two points less than [2^15] apart in each coordinate: the sum of the
    squares then stays below [2^31]. *)
Definition near (p q : point) : Prop :=
  (Z.abs (px q - px p) <= 32767 /\ Z.abs (py q - py p) <= 32767)%Z.

Definition no_wrap (start end_ far : point) : Prop :=
  near start end_ /\ near start far /\ near far end_.

(** Twice the scalar product of the two sides that meet at [far]. *)
Definition twice_dot (start end_ far : point) : Z :=
  (2 * ((px start - px far) * (px end_ - px far)
        + (py start - py far) * (py end_ - py far)))%Z.

(** The cosine of the angle at [far], by the law of cosines. *)
Definition law_of_cosines (start end_ far : point) : R :=
  ((len start far ^ 2 + len far end_ ^ 2 - len start end_ ^ 2)
   / (2 * len start far * len far end_))%R.

(** The angle at [far] between the segments to [start] and to [end_] is at
    most 60 degrees (its cosine is at least 1/2), in integers. *)
Definition narrow (start end_ far : point) : Prop :=
  far <> start /\ far <> end_ /\
  (0 <= twice_dot start end_ far)%Z /\
  (sq_len start far * sq_len far end_
   <= twice_dot start end_ far * twice_dot start end_ far)%Z.

(** The angle at [far] is at least 120 degrees (its cosine is at most -1/2). *)
Definition wide (start end_ far : point) : Prop :=
  far <> start /\ far <> end_ /\
  (twice_dot start end_ far <= 0)%Z /\
  (sq_len start far * sq_len far end_
   <= twice_dot start end_ far * twice_dot start end_ far)%Z.

(** ** What the statements below speak about *)

(** The position of a closed curve of [n] samples that the (possibly
    negative or too large) position [z] stands for. *)
Definition wrap_index (n : nat) (z : Z) : nat :=
  Z.to_nat (z mod Z.of_nat n).

(** The mean of the 21 values around position [i] of a closed curve [d]:
    ten before, the value itself, ten after. *)
Definition circular_mean (d : list Q) (i : nat) : Q :=
  qsum (map (fun k => nth (wrap_index (length d) (Z.of_nat i + Z.of_nat k - 10)) d 0)
            (seq 0 21)) * (1 # 21).

(** Position [p] lies on a plateau [l..r] of [x] whose two neighbours are
    lower: a local maximum of the signal. *)
Definition local_maximum (x : list Q) (p : nat) : Prop :=
  exists l r : nat,
    (1 <= l /\ l <= p /\ p <= r /\ r + 1 < length x)%nat /\
    (forall k, (l <= k <= r)%nat -> nth k x 0 == nth p x 0) /\
    nth (l - 1) x 0 < nth p x 0 /\
    nth (r + 1) x 0 < nth p x 0.

(** [l] is in ascending order of the first coordinate. *)
Definition ascending_x (l : list point) : Prop :=
  StronglySorted (fun a b => (px a <= px b)%Z) l.

(** ** More sample data *)

(** The Euclidean norm of an integer vector, rounded down to a multiple of
    [2^-20]: a computable stand-in for [np.linalg.norm]. *)
Definition approx_norm (v : point) : Q :=
  Z.sqrt ((px v * px v + py v * py v) * 2 ^ 40) # 1048576.

(** A closed curve of 360 points around (200, 200): seven pointed tips in a
    fan above the centre, a circle of radius 45 elsewhere. *)
Definition star_contour : contour :=
  [
    (245, 200); (245, 199); (245, 198); (245, 198); (245, 197); (245, 196);
    (245, 195); (245, 195); (245, 194); (244, 193); (244, 192); (244, 191);
    (250, 189); (256, 187); (261, 185); (267, 182); (273, 179); (278, 176);
    (283, 173); (289, 169); (294, 166); (288, 166); (281, 167); (275, 168);
    (269, 169); (263, 171); (257, 172); (251, 174); (245, 176); (239, 178);
    (239, 178); (239, 177); (238, 176); (238, 175); (237, 175); (241, 171);
    (246, 166); (251, 161); (256, 156); (261, 150); (266, 145); (270, 139);
    (275, 133); (279, 127); (276, 127); (269, 131); (263, 135); (257, 139);
    (251, 143); (245, 148); (240, 153); (234, 158); (229, 163); (227, 164);
    (226, 164); (226, 163); (225, 163); (225, 162); (225, 159); (229, 152);
    (232, 144); (235, 136); (238, 128); (241, 120); (243, 112); (245, 104);
    (247, 95); (246, 92); (241, 99); (236, 106); (232, 113); (227, 121); (223,
    128); (220, 136); (216, 143); (213, 151); (211, 156); (210, 156); (209,
    156); (209, 156); (208, 156); (207, 156); (207, 148); (207, 140); (207,
    132); (207, 124); (206, 116); (205, 108); (203, 101); (202, 93); (200, 85);
    (198, 93); (197, 101); (195, 108); (194, 116); (193, 124); (193, 132); (193,
    140); (193, 148); (193, 156); (192, 156); (191, 156); (191, 156); (190,
    156); (189, 156); (187, 152); (185, 146); (182, 140); (179, 134); (175,
    128); (172, 122); (168, 116); (164, 111); (160, 105); (159, 108); (160,
    115); (162, 122); (163, 128); (165, 135); (167, 141); (170, 148); (172,
    154); (175, 160); (175, 162); (175, 163); (174, 163); (174, 164); (173,
    164); (171, 163); (167, 159); (163, 156); (158, 152); (154, 149); (149,
    145); (144, 142); (139, 139); (134, 137); (132, 136); (135, 141); (138,
    146); (141, 151); (145, 155); (148, 160); (152, 164); (156, 168); (160,
    172); (163, 175); (162, 175); (162, 176); (161, 177); (161, 178); (161,
    178); (156, 177); (151, 175); (146, 174); (141, 173); (136, 172); (131,
    171); (126, 170); (121, 170); (115, 169); (120, 172); (124, 175); (128,
    178); (133, 181); (137, 183); (142, 185); (146, 188); (151, 190); (156,
    191); (156, 192); (156, 193); (155, 194); (155, 195); (155, 195); (155,
    196); (155, 197); (155, 198); (155, 198); (155, 199); (155, 200); (155,
    201); (155, 202); (155, 202); (155, 203); (155, 204); (155, 205); (155,
    205); (155, 206); (156, 207); (156, 208); (156, 209); (156, 209); (156,
    210); (156, 211); (157, 212); (157, 212); (157, 213); (157, 214); (157,
    215); (158, 215); (158, 216); (158, 217); (159, 218); (159, 218); (159,
    219); (160, 220); (160, 220); (160, 221); (161, 222); (161, 222); (161,
    223); (162, 224); (162, 225); (163, 225); (163, 226); (164, 226); (164,
    227); (165, 228); (165, 228); (166, 229); (166, 230); (167, 230); (167,
    231); (168, 231); (168, 232); (169, 232); (169, 233); (170, 233); (170,
    234); (171, 234); (172, 235); (172, 235); (173, 236); (174, 236); (174,
    237); (175, 237); (175, 238); (176, 238); (177, 239); (177, 239); (178,
    239); (179, 240); (180, 240); (180, 240); (181, 241); (182, 241); (182,
    241); (183, 242); (184, 242); (185, 242); (185, 243); (186, 243); (187,
    243); (188, 243); (188, 243); (189, 244); (190, 244); (191, 244); (191,
    244); (192, 244); (193, 244); (194, 245); (195, 245); (195, 245); (196,
    245); (197, 245); (198, 245); (198, 245); (199, 245); (200, 245); (201,
    245); (202, 245); (202, 245); (203, 245); (204, 245); (205, 245); (205,
    245); (206, 245); (207, 244); (208, 244); (209, 244); (209, 244); (210,
    244); (211, 244); (212, 243); (212, 243); (213, 243); (214, 243); (215,
    243); (215, 242); (216, 242); (217, 242); (218, 241); (218, 241); (219,
    241); (220, 240); (220, 240); (221, 240); (222, 239); (222, 239); (223,
    239); (224, 238); (225, 238); (225, 237); (226, 237); (226, 236); (227,
    236); (228, 235); (228, 235); (229, 234); (230, 234); (230, 233); (231,
    233); (231, 232); (232, 232); (232, 231); (233, 231); (233, 230); (234,
    230); (234, 229); (235, 228); (235, 228); (236, 227); (236, 226); (237,
    226); (237, 225); (238, 225); (238, 224); (239, 223); (239, 223); (239,
    222); (240, 221); (240, 220); (240, 220); (241, 219); (241, 218); (241,
    218); (242, 217); (242, 216); (242, 215); (243, 215); (243, 214); (243,
    213); (243, 212); (243, 212); (244, 211); (244, 210); (244, 209); (244,
    209); (244, 208); (244, 207); (245, 206); (245, 205); (245, 205); (245,
    204); (245, 203); (245, 202); (245, 202); (245, 201)
  ]%Z.

(** A circle of 20 points at distance 50 from (200, 200). *)
Definition ring_contour : contour :=
  [ (250, 200); (248, 214); (240, 230); (230, 240); (214, 248); (200, 250);
    (186, 248); (170, 240); (160, 230); (152, 214); (150, 200); (152, 186);
    (160, 170); (170, 160); (186, 152); (200, 150); (214, 152); (230, 160);
    (240, 170); (248, 186) ]%Z.

(** A mask whose top-left and bottom-right corners are foreground and whose
    two other corners are background: what thresholding leaves of a bright
    diagonal stripe on a dark ground. *)
Definition diagonal_mask : plane :=
  [ [255; 255; 0;   0];
    [255; 255; 255; 0];
    [0;   255; 255; 255];
    [0;   0;   255; 255] ]%Z.

(** A fully transparent image. *)
Definition transparent_image : image :=
  WithAlpha [ [0; 0; 0]; [0; 0; 0]; [0; 0; 0] ]%Z.

(** A stand-in for OpenCV on the sample images: their masks hold no speckle,
    so opening leaves them as they are; a mask with foreground is taken to
    show the star, with its palm circle of radius 40 around (200, 200). *)
Definition bench_cv : cv2 :=
  {| otsu_level := fun _ => 127%Z;
     morph_open := fun m => m;
     findContours := fun m =>
       if existsb (existsb (fun v => negb (v =? 0)%Z)) m then [star_contour] else [];
     contourArea := fun _ => 0;
     palm_of := fun _ => ((200, 200)%Z, 40);
     convexHull := fun c => Some c;
     norm := approx_norm;
     atan2 := sample_atan2 |}.

(** A triangle-shaped outline, with a point on its base. *)
Definition wedge_contour : contour :=
  [ (0, 0); (40, 0); (20, 30); (20, 0) ]%Z.

(** An open hand drawn as a comb: five tips on the line y = 0 and four
    valleys 20 pixels below, with the four rows of defects between the
    tips. *)
Definition comb_contour : contour :=
  [ (0, 0); (5, 20); (10, 0); (15, 20); (20, 0); (25, 20); (30, 0); (35, 20);
    (40, 0) ]%Z.

Definition comb_defects : list defect :=
  [ {| d_start := 0; d_end := 2; d_far := 1; d_depth := 5120 |};
    {| d_start := 2; d_end := 4; d_far := 3; d_depth := 5120 |};
    {| d_start := 4; d_end := 6; d_far := 5; d_depth := 5120 |};
    {| d_start := 6; d_end := 8; d_far := 7; d_depth := 5120 |} ].

(** A defect on an outline 46400 pixels wide, 20 pixels deep and about 68
    degrees wide at its deepest point. *)
Definition banner_contour : contour :=
  [ (46389, 5); (30, 5); (46397, 25) ]%Z.

Definition banner_defects : list defect :=
  [ {| d_start := 0; d_end := 1; d_far := 2; d_depth := 5120 |} ].

(** A notch 46400 pixels deep and 100 pixels wide at its mouth: less than
    a degree wide at its deepest point. *)
Definition notch_contour : contour :=
  [ (0, 0); (0, 100); (46400, 20) ]%Z.

Definition notch_defects : list defect :=
  [ {| d_start := 0; d_end := 1; d_far := 2; d_depth := 11878400 |} ].

(** The star, traced from its top tip (200, 85). *)
Definition star_from_tip : contour :=
  skipn 90 star_contour ++ firstn 90 star_contour.

(** The number of steps between two positions around a closed contour of
    [n] points, the shorter way. *)
Definition steps_around (n p q : nat) : nat :=
  Nat.min ((p + n - q) mod n) ((q + n - p) mod n).

(** ** [detect_fingers_v2.py] *)

(** Lines 74-78: no finger kept so far is closer than [min_distance] to [p];
    the inner loop stops at the first one that is. *)
Definition is_new_finger (nrm : point -> Q) (min_distance : Q)
           (filtered_points : list point) (p : point) : bool :=
  negb (existsb (fun fp => Qlt_bool (nrm (vsub p fp)) min_distance)
                filtered_points).

(** Lines 70-72: far enough from the palm centre, and not too far below it. *)
Definition robust_admissible (nrm : point -> Q) (c : point) (max_dist : Q)
           (p : point) : bool :=
  (Qlt_bool (max_dist * (12 # 10)) (nrm (vsub p c)) &&
   Qlt_bool (ofZ (py p)) (ofZ (py c) + max_dist * (1 # 2)))%bool.

(** Lines 58-80: the loop over the sorted hull points. *)
Fixpoint robust_loop (nrm : point -> Q) (c : point) (max_dist : Q)
         (points filtered_points : list point) : list point :=
  match points with
  | [] => filtered_points
  | p :: points' =>
      if Qlt_bool (max_dist * (12 # 10)) (nrm (vsub p c)) then
        if Qlt_bool (ofZ (py p)) (ofZ (py c) + max_dist * (1 # 2)) then
          if is_new_finger nrm (max_dist * (1 # 2)) filtered_points p
          then robust_loop nrm c max_dist points' (filtered_points ++ [p])
          else robust_loop nrm c max_dist points' filtered_points
        else robust_loop nrm c max_dist points' filtered_points
      else robust_loop nrm c max_dist points' filtered_points
  end.

(** Line 54: [points.sort(key=lambda p: p[1])]. *)
Definition order_by_y (points : list point) : list point :=
  py_sort (fun a b => (py a <=? py b)%Z) points.

(** Lines 49-82, from the hull and the palm circle to the fingers. *)
Definition robust_fingers (nrm : point -> Q) (hull : list point)
           (c : point) (max_dist : Q) : list point :=
  robust_loop nrm c max_dist (order_by_y hull) [].

Definition detect_fingers_robust (cv : cv2) (img : option image)
  : outcome (list point) :=
  match img with
  | None => ImageUnreadable
  | Some im =>
      let mask := morph_open cv (silhouette cv im) in
      match findContours cv mask with
      | [] => NoContoursFound
      | c0 :: cs =>
          let max_cnt := max_by (contourArea cv) c0 cs in
          let '(palm_center, max_dist) := palm_of cv mask in
          match convexHull cv max_cnt with
          | None => Detected []
          | Some hull => Detected (robust_fingers (norm cv) hull palm_center max_dist)
          end
      end
  end.

(** [l] is in ascending order of the second coordinate. *)
Definition ascending_y (l : list point) : Prop :=
  StronglySorted (fun a b => (py a <= py b)%Z) l.

(** The curve [d] read from position [s] on, around the closed contour. *)
Definition rotate (s : nat) (d : list Q) : list Q := skipn s d ++ firstn s d.

(** A mask holds the two values [0] and [255] only. *)
Definition binary (m : plane) : Prop :=
  forall row v, In row m -> In v row -> v = 0%Z \/ v = 255%Z.

(** Two images have as many rows, and row by row as many pixels. *)
Definition same_shape (m m' : plane) : Prop :=
  map (@length Z) m = map (@length Z) m'.

(* ================================================================== *)
(** * Part II: properties *)
(* ================================================================== *)

(** ** Comparisons on floats *)

Lemma Qlt_bool_iff (x y : Q) : Qlt_bool x y = true <-> x < y.
Proof.
  unfold Qlt_bool. rewrite negb_true_iff. split.
  - intros H. apply Qnot_le_lt. intros Hle.
    apply Qle_bool_iff in Hle. congruence.
  - intros H. destruct (Qle_bool y x) eqn:E; [|reflexivity].
    apply Qle_bool_iff in E. exfalso. exact (Qlt_not_le _ _ H E).
Qed.

Lemma Qlt_bool_false_iff (x y : Q) : Qlt_bool x y = false <-> y <= x.
Proof.
  unfold Qlt_bool. rewrite negb_false_iff. apply Qle_bool_iff.
Qed.

Lemma Qle_bool_total (x y : Q) : Qle_bool x y = false -> Qle_bool y x = true.
Proof.
  intros H. apply Qle_bool_iff. apply Qlt_le_weak. apply Qnot_le_lt.
  intros Hle. apply Qle_bool_iff in Hle. congruence.
Qed.

Lemma Qle_bool_trans (x y z : Q) :
  Qle_bool x y = true -> Qle_bool y z = true -> Qle_bool x z = true.
Proof.
  rewrite !Qle_bool_iff. apply Qle_trans.
Qed.

(** ** [list.sort] *)

Section PySortFacts.
Context {A : Type}.
Variable le : A -> A -> bool.

Lemma insert_sorted_perm (x : A) (l : list A) :
  Permutation (insert_sorted le x l) (x :: l).
Proof.
  induction l as [|y l IH]; simpl.
  - apply Permutation_refl.
  - destruct (le x y).
    + apply Permutation_refl.
    + apply perm_trans with (y :: x :: l).
      * apply perm_skip. exact IH.
      * apply perm_swap.
Qed.

Lemma py_sort_perm (l : list A) : Permutation (py_sort le l) l.
Proof.
  induction l as [|x l IH]; simpl.
  - apply perm_nil.
  - apply perm_trans with (x :: py_sort le l).
    + apply insert_sorted_perm.
    + apply perm_skip. exact IH.
Qed.

Lemma py_sort_length (l : list A) : length (py_sort le l) = length l.
Proof. apply Permutation_length, py_sort_perm. Qed.

Lemma py_sort_In (l : list A) (x : A) : In x (py_sort le l) <-> In x l.
Proof.
  split; apply Permutation_in.
  - apply py_sort_perm.
  - apply Permutation_sym, py_sort_perm.
Qed.

Hypothesis le_total : forall a b, le a b = false -> le b a = true.
Hypothesis le_trans : forall a b c, le a b = true -> le b c = true -> le a c = true.

Let leP (a b : A) : Prop := le a b = true.

Lemma insert_sorted_sorted (x : A) (l : list A) :
  StronglySorted leP l -> StronglySorted leP (insert_sorted le x l).
Proof.
  induction l as [|y l IH]; simpl; intros Hs.
  - constructor; [constructor | constructor].
  - inversion Hs as [|y' l' Hl Hy]; subst.
    destruct (le x y) eqn:E.
    + constructor; [exact Hs|].
      constructor; [exact E|].
      rewrite Forall_forall in *. intros z Hz.
      unfold leP. apply le_trans with y; [exact E | apply Hy; exact Hz].
    + constructor; [apply IH; exact Hl|].
      rewrite Forall_forall in *. intros z Hz.
      apply (Permutation_in _ (insert_sorted_perm x l)) in Hz.
      destruct Hz as [<-|Hz].
      * apply le_total. exact E.
      * apply Hy. exact Hz.
Qed.

Lemma py_sort_sorted (l : list A) : StronglySorted leP (py_sort le l).
Proof.
  induction l as [|x l IH]; simpl.
  - constructor.
  - apply insert_sorted_sorted. exact IH.
Qed.

End PySortFacts.

Lemma sort_by_key_desc_sorted {A} (key : A -> Q) (l : list A) :
  StronglySorted (fun a b => key b <= key a) (sort_by_key_desc key l).
Proof.
  unfold sort_by_key_desc.
  eapply StronglySorted_ind with
    (P := fun l => StronglySorted (fun a b => key b <= key a) l);
    [constructor | | apply py_sort_sorted].
  - intros a l0 _ IH Hall. constructor; [exact IH|].
    rewrite Forall_forall in *. intros z Hz.
    apply Qle_bool_iff. apply Hall. exact Hz.
  - intros a b. apply Qle_bool_total.
  - intros a b c H1 H2. eapply Qle_bool_trans; eassumption.
Qed.

Lemma sort_by_key_sorted {A} (key : A -> Q) (l : list A) :
  StronglySorted (fun a b => key a <= key b) (sort_by_key key l).
Proof.
  unfold sort_by_key.
  eapply StronglySorted_ind with
    (P := fun l => StronglySorted (fun a b => key a <= key b) l);
    [constructor | | apply py_sort_sorted].
  - intros a l0 _ IH Hall. constructor; [exact IH|].
    rewrite Forall_forall in *. intros z Hz.
    apply Qle_bool_iff. apply Hall. exact Hz.
  - intros a b. apply Qle_bool_total.
  - intros a b c H1 H2. eapply Qle_bool_trans; eassumption.
Qed.

Lemma order_by_x_sorted (l : list point) : ascending_x (order_by_x l).
Proof.
  unfold ascending_x, order_by_x.
  eapply StronglySorted_ind with
    (P := fun l => StronglySorted (fun a b => (px a <= px b)%Z) l);
    [constructor | | apply py_sort_sorted].
  - intros a l0 _ IH Hall. constructor; [exact IH|].
    rewrite Forall_forall in *. intros z Hz.
    apply Z.leb_le. apply Hall. exact Hz.
  - intros a b H. apply Z.leb_le. apply Z.leb_gt in H. lia.
  - intros a b c H1 H2. apply Z.leb_le. apply Z.leb_le in H1, H2. lia.
Qed.

Lemma ascending_x_nth (l : list point) :
  ascending_x l ->
  forall a b, (a < b)%nat -> (b < length l)%nat ->
              (px (nth a l (0, 0)%Z) <= px (nth b l (0, 0)%Z))%Z.
Proof.
  induction 1 as [|x l Hs IH Hx]; intros a b Hab Hb.
  - simpl in Hb. lia.
  - destruct b as [|b]; [lia|]. simpl in Hb.
    destruct a as [|a]; simpl.
    + rewrite Forall_forall in Hx. apply Hx. apply nth_In. lia.
    + apply IH; lia.
Qed.

Lemma order_by_x_perm (l : list point) : Permutation (order_by_x l) l.
Proof. apply py_sort_perm. Qed.

(** A sorted list splits into a front that dominates its back. *)
Lemma sorted_firstn_skipn {A} (R : A -> A -> Prop) (n : nat) (l : list A) :
  StronglySorted R l ->
  forall a b, In a (firstn n l) -> In b (skipn n l) -> R a b.
Proof.
  intros Hs. revert n.
  induction Hs as [|x l Hs IH Hx]; intros n a b Ha Hb.
  - rewrite firstn_nil in Ha. destruct Ha.
  - destruct n as [|n]; simpl in *.
    + destruct Ha.
    + destruct Ha as [<-|Ha].
      * rewrite Forall_forall in Hx. apply Hx.
        rewrite <- (firstn_skipn n l). apply in_or_app. right. exact Hb.
      * eapply IH; eassumption.
Qed.

(** ** [max] *)

Lemma max_by_In {A} (key : A -> Q) (l : list A) (x : A) :
  In (max_by key x l) (x :: l).
Proof.
  revert x. induction l as [|y l IH]; intros x; simpl.
  - left. reflexivity.
  - specialize (IH (if Qlt_bool (key x) (key y) then y else x)).
    destruct IH as [H|H].
    + destruct (Qlt_bool (key x) (key y)); [right; left | left]; exact H.
    + right. right. exact H.
Qed.

Lemma max_by_ge_start {A} (key : A -> Q) (l : list A) (x : A) :
  key x <= key (max_by key x l).
Proof.
  revert x. induction l as [|y l IH]; intros x; simpl.
  - apply Qle_refl.
  - destruct (Qlt_bool (key x) (key y)) eqn:E.
    + apply Qlt_bool_iff in E. eapply Qle_trans; [|apply IH].
      apply Qlt_le_weak. exact E.
    + apply IH.
Qed.

Lemma max_by_greatest {A} (key : A -> Q) (l : list A) (x z : A) :
  In z (x :: l) -> key z <= key (max_by key x l).
Proof.
  revert x. induction l as [|y l IH]; intros x Hz.
  - destruct Hz as [<-|[]]. apply Qle_refl.
  - simpl. destruct Hz as [<-|[<-|Hz]].
    + destruct (Qlt_bool (key x) (key y)) eqn:E.
      * apply Qlt_bool_iff in E. eapply Qle_trans; [|apply max_by_ge_start].
        apply Qlt_le_weak. exact E.
      * apply max_by_ge_start.
    + destruct (Qlt_bool (key x) (key y)) eqn:E.
      * apply max_by_ge_start.
      * apply Qlt_bool_false_iff in E.
        eapply Qle_trans; [exact E | apply max_by_ge_start].
    + apply IH. right. exact Hz.
Qed.

(** ** The cap at five fingers *)

Lemma keep_farthest_length (nrm : point -> Q) (c : point) (fs : list point) :
  (length (keep_farthest nrm c fs) <= 5)%nat.
Proof.
  unfold keep_farthest. destruct (5 <? length fs)%nat eqn:E.
  - rewrite length_firstn. apply Nat.le_min_l.
  - apply Nat.ltb_ge in E. exact E.
Qed.

Lemma keep_farthest_small (nrm : point -> Q) (c : point) (fs : list point) :
  (length fs <= 5)%nat -> keep_farthest nrm c fs = fs.
Proof.
  intros H. unfold keep_farthest.
  destruct (5 <? length fs)%nat eqn:E; [|reflexivity].
  apply Nat.ltb_lt in E. lia.
Qed.

Lemma keep_farthest_large (nrm : point -> Q) (c : point) (fs : list point) :
  (5 < length fs)%nat ->
  length (keep_farthest nrm c fs) = 5%nat /\
  exists dropped,
    Permutation (keep_farthest nrm c fs ++ dropped) fs /\
    forall k d, In k (keep_farthest nrm c fs) -> In d dropped ->
                nrm (vsub d c) <= nrm (vsub k c).
Proof.
  intros H. unfold keep_farthest.
  apply Nat.ltb_lt in H. rewrite H. apply Nat.ltb_lt in H.
  set (key := fun p : point => nrm (vsub p c)).
  split.
  - rewrite length_firstn. unfold sort_by_key_desc.
    rewrite py_sort_length. lia.
  - exists (skipn 5 (sort_by_key_desc key fs)). split.
    + rewrite firstn_skipn. apply py_sort_perm.
    + intros k d Hk Hd.
      exact (sorted_firstn_skipn 5 (sort_by_key_desc_sorted key fs) k d Hk Hd).
Qed.

Lemma keep_farthest_incl (nrm : point -> Q) (c : point) (fs : list point) (p : point) :
  In p (keep_farthest nrm c fs) -> In p fs.
Proof.
  unfold keep_farthest. destruct (5 <? length fs)%nat; [|trivial].
  intros H.
  apply (py_sort_In (fun a b => Qle_bool (nrm (vsub b c)) (nrm (vsub a c)))).
  fold (sort_by_key_desc (fun p => nrm (vsub p c)) fs).
  rewrite <- (firstn_skipn 5 (sort_by_key_desc (fun p => nrm (vsub p c)) fs)).
  apply in_or_app. left. exact H.
Qed.

(** ** [np.pad] and [np.convolve] *)

Lemma nth_cycle (l : list Q) (m j : nat) :
  (0 < length l)%nat -> (j < m * length l)%nat ->
  nth j (concat (repeat l m)) 0 = nth (j mod length l) l 0.
Proof.
  intros Hl. revert j. induction m as [|m IH]; intros j Hj.
  - simpl in Hj. lia.
  - simpl repeat. rewrite concat_cons.
    destruct (Nat.lt_ge_cases j (length l)) as [Hlt|Hge].
    + rewrite app_nth1 by exact Hlt. rewrite Nat.mod_small by exact Hlt.
      reflexivity.
    + rewrite app_nth2 by exact Hge. rewrite IH by (simpl in Hj; lia).
      f_equal.
      replace j with ((j - length l) + 1 * length l)%nat at 2 by lia.
      rewrite Nat.Div0.mod_add. reflexivity.
Qed.

Lemma cycle_prefix_length (k : nat) (l : list Q) :
  (0 < length l)%nat -> length (cycle_prefix k l) = k.
Proof.
  intros Hl. unfold cycle_prefix. rewrite length_firstn.
  apply Nat.min_l.
  assert (Hc : forall m, length (concat (repeat l m)) = (m * length l)%nat).
  { induction m as [|m IH]; simpl; [reflexivity|].
    rewrite length_app, IH. reflexivity. }
  rewrite Hc. nia.
Qed.

Lemma cycle_prefix_nth (k : nat) (l : list Q) (j : nat) :
  (0 < length l)%nat -> (j < k)%nat ->
  nth j (cycle_prefix k l) 0 = nth (j mod length l) l 0.
Proof.
  intros Hl Hj. unfold cycle_prefix. rewrite nth_firstn.
  apply Nat.ltb_lt in Hj. rewrite Hj. apply Nat.ltb_lt in Hj.
  apply nth_cycle; [exact Hl | nia].
Qed.

Lemma cycle_suffix_length (k : nat) (l : list Q) :
  (0 < length l)%nat -> length (cycle_suffix k l) = k.
Proof.
  intros Hl. unfold cycle_suffix. rewrite length_rev.
  apply cycle_prefix_length. rewrite length_rev. exact Hl.
Qed.

Lemma cycle_suffix_nth (k : nat) (l : list Q) (j : nat) :
  (0 < length l)%nat -> (j < k)%nat ->
  nth j (cycle_suffix k l) 0 =
  nth (length l - 1 - (k - 1 - j) mod length l) l 0.
Proof.
  intros Hl Hj. unfold cycle_suffix.
  assert (Hlen : length (cycle_prefix k (rev l)) = k).
  { apply cycle_prefix_length. rewrite length_rev. exact Hl. }
  rewrite rev_nth by (rewrite Hlen; exact Hj).
  rewrite Hlen.
  replace (k - S j)%nat with (k - 1 - j)%nat by lia.
  rewrite cycle_prefix_nth by (rewrite ?length_rev; lia).
  rewrite length_rev.
  assert (Hm : ((k - 1 - j) mod length l < length l)%nat)
    by (apply Nat.mod_upper_bound; lia).
  rewrite rev_nth by exact Hm.
  f_equal. lia.
Qed.

Lemma wrap_index_unique (n : nat) (z q : Z) (r : nat) :
  (r < n)%nat -> (z = q * Z.of_nat n + Z.of_nat r)%Z -> wrap_index n z = r.
Proof.
  intros Hr Hz. unfold wrap_index.
  rewrite <- (Z.mod_unique z (Z.of_nat n) q (Z.of_nat r)).
  - apply Nat2Z.id.
  - left. lia.
  - lia.
Qed.

Lemma np_pad_wrap_length (b a : nat) (l : list Q) :
  (0 < length l)%nat -> length (np_pad_wrap b a l) = (b + length l + a)%nat.
Proof.
  intros Hl. unfold np_pad_wrap.
  rewrite !length_app, cycle_suffix_length, cycle_prefix_length by exact Hl.
  lia.
Qed.

Lemma np_pad_wrap_nth (b a : nat) (l : list Q) (j : nat) :
  (0 < length l)%nat -> (j < b + length l + a)%nat ->
  nth j (np_pad_wrap b a l) 0 =
  nth (wrap_index (length l) (Z.of_nat j - Z.of_nat b)) l 0.
Proof.
  intros Hl Hj. unfold np_pad_wrap.
  set (n := length l) in *.
  destruct (Nat.lt_ge_cases j b) as [H1|H1].
  - rewrite app_nth1 by (rewrite cycle_suffix_length; assumption).
    rewrite cycle_suffix_nth by assumption. fold n.
    f_equal. symmetry.
    assert (Hm : ((b - 1 - j) mod n < n)%nat)
      by (apply Nat.mod_upper_bound; lia).
    apply wrap_index_unique with (q := (- Z.of_nat ((b - 1 - j) / n) - 1)%Z).
    + lia.
    + pose proof (Nat.div_mod_eq (b - 1 - j) n) as Hd.
      nia.
  - rewrite app_nth2 by (rewrite cycle_suffix_length; assumption).
    rewrite cycle_suffix_length by assumption.
    destruct (Nat.lt_ge_cases (j - b) n) as [H2|H2].
    + rewrite app_nth1 by exact H2. f_equal. symmetry.
      apply wrap_index_unique with (q := 0%Z); lia.
    + rewrite app_nth2 by exact H2. fold n.
      rewrite cycle_prefix_nth by (fold n; lia). fold n.
      f_equal. symmetry.
      assert (Hm : ((j - b - n) mod n < n)%nat)
        by (apply Nat.mod_upper_bound; lia).
      apply wrap_index_unique with (q := (Z.of_nat ((j - b - n) / n) + 1)%Z).
      * lia.
      * pose proof (Nat.div_mod_eq (j - b - n) n) as Hd.
        nia.
Qed.

Lemma nth_map_seq {B} (g : nat -> B) (m i : nat) (d : B) :
  (i < m)%nat -> nth i (map g (seq 0 m)) d = g i.
Proof.
  intros Hi.
  rewrite (nth_indep _ d (g O)) by (rewrite length_map, length_seq; exact Hi).
  rewrite map_nth, seq_nth by exact Hi. reflexivity.
Qed.

Lemma firstn_skipn_window (L : list Q) (i m : nat) :
  (i + m <= length L)%nat ->
  firstn m (skipn i L) = map (fun k => nth (i + k) L 0) (seq 0 m).
Proof.
  intros H.
  apply nth_ext with (d := 0) (d' := 0).
  - rewrite length_firstn, length_skipn, length_map, length_seq. lia.
  - intros k Hk.
    rewrite length_firstn, length_skipn in Hk.
    assert (Hkm : (k < m)%nat) by lia.
    rewrite nth_firstn. apply Nat.ltb_lt in Hkm. rewrite Hkm.
    apply Nat.ltb_lt in Hkm.
    rewrite nth_skipn, nth_map_seq by exact Hkm. reflexivity.
Qed.

Lemma dot_repeat (u : list Q) (c : Q) :
  dot u (repeat c (length u)) == qsum u * c.
Proof.
  unfold dot. induction u as [|a u IH]; simpl.
  - ring.
  - rewrite IH. ring.
Qed.

Lemma smooth_length (d : list Q) :
  (0 < length d)%nat -> length (smooth d) = length d.
Proof.
  intros Hd. unfold smooth, np_convolve_valid, window_size.
  change (21 / 2)%nat with 10%nat.
  rewrite np_pad_wrap_length by exact Hd.
  rewrite repeat_length.
  destruct (10 + length d + 10 <? 21)%nat eqn:E.
  - apply Nat.ltb_lt in E. lia.
  - unfold correlate.
    rewrite length_map, length_seq, length_rev, repeat_length.
    rewrite np_pad_wrap_length by exact Hd. lia.
Qed.

Lemma smooth_nth (d : list Q) (i : nat) :
  (i < length d)%nat -> nth i (smooth d) 0 == circular_mean d i.
Proof.
  intros Hi.
  assert (Hd : (0 < length d)%nat) by lia.
  unfold smooth, np_convolve_valid, window_size.
  change (21 / 2)%nat with 10%nat.
  rewrite np_pad_wrap_length by exact Hd.
  rewrite repeat_length.
  destruct (10 + length d + 10 <? 21)%nat eqn:E.
  { apply Nat.ltb_lt in E. lia. }
  unfold correlate.
  rewrite rev_repeat, repeat_length.
  rewrite np_pad_wrap_length by exact Hd.
  rewrite nth_map_seq by lia.
  rewrite firstn_skipn_window by (rewrite np_pad_wrap_length by exact Hd; lia).
  set (w := map _ (seq 0 21)).
  assert (Hw : length w = 21%nat) by (unfold w; rewrite length_map, length_seq; reflexivity).
  replace (repeat (1 # 21) 21) with (repeat (1 # 21) (length w))
    by (rewrite Hw; reflexivity).
  rewrite dot_repeat.
  unfold circular_mean.
  assert (Heq : w = map (fun k =>
                  nth (wrap_index (length d) (Z.of_nat i + Z.of_nat k - 10)) d 0)
                  (seq 0 21)).
  { unfold w. apply map_ext_in. intros k Hk. apply in_seq in Hk.
    rewrite np_pad_wrap_nth by lia.
    f_equal. f_equal. lia. }
  rewrite Heq. reflexivity.
Qed.

(** ** [_local_maxima_1d] *)

Lemma skip_plateau_spec (x : list Q) (xi : Q) (i_max : nat) (fuel a : nat) :
  (a <= i_max)%nat ->
  let a' := skip_plateau x xi i_max a fuel in
  (a <= a' <= i_max)%nat /\
  forall k, (a <= k < a')%nat -> nth k x 0 == xi.
Proof.
  revert a. induction fuel as [|fuel IH]; intros a Ha; simpl.
  - split; [lia|]. intros k Hk. lia.
  - destruct (a <? i_max)%nat eqn:E1; simpl.
    + destruct (Qeq_bool (nth a x 0) xi) eqn:E2.
      * apply Nat.ltb_lt in E1.
        destruct (IH (S a)) as [Hb Heq]; [lia|].
        split; [lia|]. intros k Hk.
        destruct (Nat.eq_dec k a) as [->|Hne].
        -- apply Qeq_bool_iff. exact E2.
        -- apply Heq. lia.
      * split; [lia|]. intros k Hk. lia.
    + split; [lia|]. intros k Hk. lia.
Qed.

Lemma local_maxima_from_spec (x : list Q) (fuel i : nat) :
  (1 <= i)%nat ->
  let out := local_maxima_from x (length x - 1) i fuel in
  Forall (fun p => (i <= p)%nat /\ local_maximum x p) out /\
  StronglySorted lt out.
Proof.
  revert i. induction fuel as [|fuel IH]; intros i Hi; simpl.
  - split; constructor.
  - destruct (i <? length x - 1)%nat eqn:E1; [|split; constructor].
    apply Nat.ltb_lt in E1.
    assert (Hnext : forall i', (i < i')%nat ->
              let out := local_maxima_from x (length x - 1) i' fuel in
              Forall (fun p => (i <= p)%nat /\ local_maximum x p) out /\
              StronglySorted lt out).
    { intros i' Hi'. destruct (IH i') as [HF HS]; [lia|].
      split; [|exact HS].
      eapply Forall_impl; [|exact HF]. simpl. intros p [Hp Hm].
      split; [lia | exact Hm]. }
    destruct (Qlt_bool (nth (i - 1) x 0) (nth i x 0)) eqn:E2;
      [|apply Hnext; lia].
    destruct (@skip_plateau_spec x (nth i x 0) (length x - 1) (length x) (i + 1)%nat)
      as [Hb Heq]; [lia|].
    set (i_ahead := skip_plateau x (nth i x 0) (length x - 1) (i + 1) (length x)) in *.
    destruct (Qlt_bool (nth i_ahead x 0) (nth i x 0)) eqn:E3;
      [|apply Hnext; lia].
    apply Qlt_bool_iff in E2, E3.
    set (p := ((i + (i_ahead - 1)) / 2)%nat).
    change (fst (Nat.divmod (i + (i_ahead - 1)) 1 0 1)) with p.
    assert (Hp : (i <= p <= i_ahead - 1)%nat).
    { unfold p. split.
      - apply Nat.div_le_lower_bound; lia.
      - apply Nat.Div0.div_le_upper_bound. lia. }
    assert (Hplat : forall k, (i <= k <= i_ahead - 1)%nat -> nth k x 0 == nth i x 0).
    { intros k Hk. destruct (Nat.eq_dec k i) as [->|Hne]; [reflexivity|].
      apply Heq. lia. }
    destruct (IH (i_ahead + 1)%nat) as [HF HS]; [lia|].
    split.
    + constructor.
      * split; [lia|].
        exists i, (i_ahead - 1)%nat. repeat split; try lia.
        -- intros k Hk. rewrite (Hplat k Hk), (Hplat p Hp). reflexivity.
        -- rewrite (Hplat p Hp). exact E2.
        -- rewrite (Hplat p Hp).
           replace (i_ahead - 1 + 1)%nat with i_ahead by lia. exact E3.
      * eapply Forall_impl; [|exact HF]. simpl. intros q [Hq Hm].
        split; [lia | exact Hm].
    + constructor; [exact HS|].
      eapply Forall_impl; [|exact HF]. simpl. intros q [Hq _]. lia.
Qed.

Lemma local_maxima_1d_spec (x : list Q) :
  Forall (local_maximum x) (local_maxima_1d x) /\
  StronglySorted lt (local_maxima_1d x).
Proof.
  unfold local_maxima_1d.
  destruct (@local_maxima_from_spec x (length x) 1%nat) as [HF HS]; [lia|].
  split; [|exact HS].
  eapply Forall_impl; [|exact HF]. simpl. intros p [_ Hp]. exact Hp.
Qed.

(** The loops are given enough rounds: the inner one stops because its
    condition fails, and the outer one gives the same peaks with any larger
    number of rounds. *)
Lemma skip_plateau_stops (x : list Q) (xi : Q) (i_max : nat) (fuel a : nat) :
  (a <= i_max)%nat -> (i_max - a <= fuel)%nat ->
  let a' := skip_plateau x xi i_max a fuel in
  a' = i_max \/ ~ nth a' x 0 == xi.
Proof.
  revert a. induction fuel as [|fuel IH]; intros a Ha Hf; simpl.
  - left. lia.
  - destruct (a <? i_max)%nat eqn:E1; simpl.
    + apply Nat.ltb_lt in E1.
      destruct (Qeq_bool (nth a x 0) xi) eqn:E2.
      * apply IH; lia.
      * right. apply Qeq_bool_neq. exact E2.
    + apply Nat.ltb_ge in E1. left. lia.
Qed.

Lemma local_maxima_from_fuel (x : list Q) (i_max : nat) (fuel fuel' i : nat) :
  (i_max - i <= fuel)%nat -> (i_max - i <= fuel')%nat ->
  local_maxima_from x i_max i fuel = local_maxima_from x i_max i fuel'.
Proof.
  revert fuel' i. induction fuel as [|fuel IH]; intros fuel' i Hf Hf'.
  - destruct fuel' as [|fuel']; [reflexivity|]. simpl.
    destruct (i <? i_max)%nat eqn:E; [|reflexivity].
    apply Nat.ltb_lt in E. lia.
  - destruct fuel' as [|fuel'].
    + simpl. destruct (i <? i_max)%nat eqn:E; [|reflexivity].
      apply Nat.ltb_lt in E. lia.
    + simpl. destruct (i <? i_max)%nat eqn:E; [|reflexivity].
      apply Nat.ltb_lt in E.
      destruct (Qlt_bool (nth (i - 1) x 0) (nth i x 0)); [|apply IH; lia].
      pose proof (@skip_plateau_spec x (nth i x 0) i_max (length x) (i + 1)%nat)
        as Hsp.
      cbv zeta in Hsp. destruct Hsp as [Hb _]; [lia|].
      destruct (Qlt_bool _ (nth i x 0)); [|apply IH; lia].
      f_equal. apply IH; lia.
Qed.

Lemma StronglySorted_filter {A} (R : A -> A -> Prop) (f : A -> bool) (l : list A) :
  StronglySorted R l -> StronglySorted R (filter f l).
Proof.
  induction 1 as [|a l Hs IH Ha]; simpl.
  - constructor.
  - destruct (f a); [|exact IH].
    constructor; [exact IH|].
    rewrite Forall_forall in *. intros z Hz.
    apply filter_In in Hz. apply Ha. tauto.
Qed.

Lemma StronglySorted_lt_nth (l : list nat) :
  StronglySorted lt l ->
  forall a b, (a < b)%nat -> (b < length l)%nat -> (nth a l O < nth b l O)%nat.
Proof.
  induction 1 as [|x l Hs IH Hx]; intros a b Hab Hb.
  - simpl in Hb. lia.
  - destruct b as [|b]; [lia|]. simpl in Hb.
    destruct a as [|a]; simpl.
    + rewrite Forall_forall in Hx. apply Hx. apply nth_In. lia.
    + apply IH; lia.
Qed.

Lemma select_by_height_spec (x : list Q) (hmin : Q) (peaks : list nat) (p : nat) :
  In p (select_by_height x hmin peaks) <-> In p peaks /\ hmin <= nth p x 0.
Proof.
  unfold select_by_height. rewrite filter_In, Qle_bool_iff. reflexivity.
Qed.

(** ** [_select_by_peak_distance] *)

Lemma clear_flag_length (k : nat) (keep : list bool) :
  length (clear_flag k keep) = length keep.
Proof.
  revert k. induction keep as [|b keep IH]; intros k; simpl.
  - destruct k; reflexivity.
  - destruct k; simpl; [reflexivity|]. rewrite IH. reflexivity.
Qed.

Lemma clear_flag_nth (k t : nat) (keep : list bool) :
  nth t (clear_flag k keep) false =
  if (t =? k)%nat then false else nth t keep false.
Proof.
  revert k t. induction keep as [|b keep IH]; intros k t; simpl.
  - destruct k, t; simpl; try reflexivity;
      destruct (t =? k)%nat; reflexivity.
  - destruct k as [|k], t as [|t]; simpl; try reflexivity.
    apply IH.
Qed.

Section PeakDistance.

Variable peaks : list nat.
Variable distance_ : Z.

Hypothesis peaks_sorted :
  forall a b, (a < b)%nat -> (b < length peaks)%nat ->
              (nth a peaks O < nth b peaks O)%nat.

(** Flags are only ever cleared. *)
Definition shrinks (keep keep' : list bool) : Prop :=
  length keep' = length keep /\
  forall t, nth t keep' false = true -> nth t keep false = true.

Lemma shrinks_refl (keep : list bool) : shrinks keep keep.
Proof. split; [reflexivity | trivial]. Qed.

Lemma shrinks_trans (k1 k2 k3 : list bool) :
  shrinks k1 k2 -> shrinks k2 k3 -> shrinks k1 k3.
Proof.
  intros [L1 H1] [L2 H2]. split; [congruence|].
  intros t Ht. apply H1, H2, Ht.
Qed.

Lemma shrinks_clear (k : nat) (keep : list bool) : shrinks keep (clear_flag k keep).
Proof.
  split; [apply clear_flag_length|].
  intros t. rewrite clear_flag_nth. destruct (t =? k)%nat; [discriminate|trivial].
Qed.

Lemma flag_earlier_spec (pj k1 : nat) (keep : list bool) :
  (k1 <= length peaks)%nat ->
  let keep' := flag_earlier peaks pj distance_ k1 keep in
  shrinks keep keep' /\
  (forall t, (k1 <= t)%nat -> nth t keep' false = nth t keep false) /\
  (forall t, (t < k1)%nat ->
             (Z.of_nat pj - Z.of_nat (nth t peaks O) < distance_)%Z ->
             nth t keep' false = false).
Proof.
  revert keep. induction k1 as [|k IH]; intros keep Hk; simpl.
  - split; [apply shrinks_refl|]. split; [reflexivity|]. intros t Ht. lia.
  - destruct (Z.of_nat pj - Z.of_nat (nth k peaks O) <? distance_)%Z eqn:E.
    + destruct (IH (clear_flag k keep)) as (Hs & Hsame & Hclr); [lia|].
      split; [eapply shrinks_trans; [apply shrinks_clear | exact Hs]|].
      split.
      * intros t Ht. rewrite Hsame by lia. rewrite clear_flag_nth.
        destruct (t =? k)%nat eqn:Etk; [|reflexivity].
        apply Nat.eqb_eq in Etk. lia.
      * intros t Ht Hnear.
        destruct (Nat.eq_dec t k) as [->|Hne].
        -- rewrite Hsame by lia. rewrite clear_flag_nth, Nat.eqb_refl.
           reflexivity.
        -- apply Hclr; [lia | exact Hnear].
    + split; [apply shrinks_refl|]. split; [reflexivity|].
      intros t Ht Hnear. apply Z.ltb_ge in E.
      destruct (Nat.eq_dec t k) as [->|Hne]; [lia|].
      assert (nth t peaks O < nth k peaks O)%nat
        by (apply peaks_sorted; lia).
      lia.
Qed.

Lemma flag_later_spec (pj fuel k : nat) (keep : list bool) :
  (length peaks <= k + fuel)%nat ->
  let keep' := flag_later peaks pj distance_ k fuel keep in
  shrinks keep keep' /\
  (forall t, (t < k)%nat -> nth t keep' false = nth t keep false) /\
  (forall t, (k <= t < length peaks)%nat ->
             (Z.of_nat (nth t peaks O) - Z.of_nat pj < distance_)%Z ->
             nth t keep' false = false).
Proof.
  revert k keep. induction fuel as [|fuel IH]; intros k keep Hk; simpl.
  - split; [apply shrinks_refl|]. split; [reflexivity|]. intros t Ht. lia.
  - destruct (k <? length peaks)%nat eqn:E1; simpl.
    + apply Nat.ltb_lt in E1.
      destruct (Z.of_nat (nth k peaks O) - Z.of_nat pj <? distance_)%Z eqn:E.
      * destruct (IH (S k) (clear_flag k keep)) as (Hs & Hsame & Hclr); [lia|].
        split; [eapply shrinks_trans; [apply shrinks_clear | exact Hs]|].
        split.
        -- intros t Ht. rewrite Hsame by lia. rewrite clear_flag_nth.
           destruct (t =? k)%nat eqn:Etk; [|reflexivity].
           apply Nat.eqb_eq in Etk. lia.
        -- intros t Ht Hnear.
           destruct (Nat.eq_dec t k) as [->|Hne].
           ++ rewrite Hsame by lia. rewrite clear_flag_nth, Nat.eqb_refl.
              reflexivity.
           ++ apply Hclr; [lia | exact Hnear].
      * split; [apply shrinks_refl|]. split; [reflexivity|].
        intros t Ht Hnear. apply Z.ltb_ge in E.
        destruct (Nat.eq_dec t k) as [->|Hne]; [lia|].
        assert (nth k peaks O < nth t peaks O)%nat
          by (apply peaks_sorted; lia).
        lia.
    + apply Nat.ltb_ge in E1.
      split; [apply shrinks_refl|]. split; [reflexivity|].
      intros t Ht. lia.
Qed.

(** Two positions of [peaks] hold peaks closer than [distance_]. *)
Definition too_close (j t : nat) : Prop :=
  (Z.abs (Z.of_nat (nth j peaks O) - Z.of_nat (nth t peaks O)) < distance_)%Z.

Lemma visit_peak_spec (keep : list bool) (j : nat) :
  length keep = length peaks ->
  let keep' := visit_peak peaks distance_ keep j in
  shrinks keep keep' /\
  (nth j keep' false = true ->
   forall t, (t < length peaks)%nat -> t <> j -> too_close j t ->
             nth t keep' false = false).
Proof.
  intros Hlen. unfold visit_peak.
  destruct (nth j keep false) eqn:Ej.
  - assert (Hj : (j < length peaks)%nat).
    { destruct (Nat.lt_ge_cases j (length peaks)) as [H|H]; [exact H|].
      rewrite nth_overflow in Ej by lia. discriminate. }
    destruct (@flag_earlier_spec (nth j peaks O) j keep) as (Hs1 & Hsame1 & Hclr1);
      [lia|].
    set (keep1 := flag_earlier peaks (nth j peaks O) distance_ j keep) in *.
    destruct (@flag_later_spec (nth j peaks O) (length peaks) (j + 1)%nat keep1)
      as (Hs2 & Hsame2 & Hclr2); [lia|].
    set (keep2 := flag_later peaks (nth j peaks O) distance_ (j + 1)
                    (length peaks) keep1) in *.
    split; [eapply shrinks_trans; eassumption|].
    intros _ t Ht Hne Hclose. unfold too_close in Hclose.
    destruct (Nat.lt_ge_cases t j) as [Hlt|Hge].
    + assert (nth t peaks O < nth j peaks O)%nat by (apply peaks_sorted; lia).
      destruct (nth t keep2 false) eqn:Et; [|reflexivity].
      destruct Hs2 as [_ Hs2]. apply Hs2 in Et.
      rewrite Hclr1 in Et by lia. discriminate.
    + assert (nth j peaks O < nth t peaks O)%nat by (apply peaks_sorted; lia).
      apply Hclr2; lia.
  - split; [apply shrinks_refl|]. intros H. simpl in H. congruence.
Qed.

(** Every visited peak that is still flagged has no flagged peak too close. *)
Definition settled (keep : list bool) (visited : list nat) : Prop :=
  forall j, In j visited -> nth j keep false = true ->
  forall t, (t < length peaks)%nat -> t <> j -> too_close j t ->
            nth t keep false = false.

Lemma visit_all_spec (order visited : list nat) (keep : list bool) :
  length keep = length peaks ->
  settled keep visited ->
  let keep' := fold_left (visit_peak peaks distance_) order keep in
  shrinks keep keep' /\ settled keep' (visited ++ order).
Proof.
  revert visited keep. induction order as [|j order IH]; intros visited keep Hlen Hset; simpl.
  - split; [apply shrinks_refl|]. rewrite app_nil_r. exact Hset.
  - destruct (@visit_peak_spec keep j Hlen) as (Hs & Hnew).
    set (keep1 := visit_peak peaks distance_ keep j) in *.
    assert (Hset1 : settled keep1 (visited ++ [j])).
    { intros j' Hj' Hk t Ht Hne Hclose.
      apply in_app_or in Hj'. destruct Hj' as [Hj'|[<-|[]]].
      - destruct Hs as [_ Hs].
        destruct (nth t keep1 false) eqn:Et; [|reflexivity].
        apply Hs in Et. apply Hs in Hk.
        rewrite (Hset j' Hj' Hk t Ht Hne Hclose) in Et. discriminate.
      - apply Hnew; assumption. }
    destruct (IH (visited ++ [j]) keep1) as (Hs' & Hset');
      [destruct Hs; congruence | exact Hset1 |].
    split; [eapply shrinks_trans; eassumption|].
    rewrite <- app_assoc in Hset'. exact Hset'.
Qed.

End PeakDistance.

Lemma argsort_perm (priority : list Q) :
  Permutation (argsort priority) (seq 0 (length priority)).
Proof. apply py_sort_perm. Qed.

Lemma keep_flags_spec (peaks : list nat) (priority : list Q) (distance : Q) :
  StronglySorted lt peaks ->
  length priority = length peaks ->
  let keep := keep_flags peaks priority distance in
  length keep = length peaks /\
  forall j t, (j < length peaks)%nat -> (t < length peaks)%nat -> t <> j ->
              nth j keep false = true -> nth t keep false = true ->
              ~ too_close peaks (Qceiling distance) j t.
Proof.
  intros Hsorted Hlen. unfold keep_flags.
  destruct (@visit_all_spec peaks (Qceiling distance)
              (StronglySorted_lt_nth Hsorted)
              (rev (argsort priority)) [] (repeat true (length peaks)))
    as ([Hl _] & Hset).
  - apply repeat_length.
  - intros j [].
  - split; [rewrite Hl; apply repeat_length|].
    intros j t Hj Ht Hne Hkj Hkt Hclose.
    simpl in Hset.
    assert (Hin : In j (rev (argsort priority))).
    { apply -> in_rev.
      apply (Permutation_in _ (Permutation_sym (argsort_perm priority))).
      apply in_seq. lia. }
    rewrite (Hset j Hin Hkj t Ht Hne Hclose) in Hkt. discriminate.
Qed.

Lemma select_flagged_In (peaks : list nat) (keep : list bool) (p : nat) :
  In p (select_flagged peaks keep) ->
  exists j, (j < length peaks)%nat /\ nth j peaks O = p /\ nth j keep false = true.
Proof.
  unfold select_flagged. revert keep.
  induction peaks as [|a peaks IH]; intros keep H; simpl in H.
  - destruct H.
  - destruct keep as [|b keep]; simpl in H; [destruct H|].
    destruct b; simpl in H.
    + destruct H as [<-|H].
      * exists O. simpl. repeat split. lia.
      * destruct (IH keep H) as (j & Hj & Hp & Hk).
        exists (S j). simpl. repeat split; [lia | exact Hp | exact Hk].
    + destruct (IH keep H) as (j & Hj & Hp & Hk).
      exists (S j). simpl. repeat split; [lia | exact Hp | exact Hk].
Qed.

Lemma select_by_peak_distance_spec (x : list Q) (distance : Q) (peaks : list nat) :
  StronglySorted lt peaks ->
  forall p, In p (select_by_peak_distance x distance peaks) ->
    In p peaks /\
    forall q, In q (select_by_peak_distance x distance peaks) -> q <> p ->
              distance <= ofZ (Z.abs (Z.of_nat p - Z.of_nat q)).
Proof.
  intros Hsorted p Hp. unfold select_by_peak_distance in *.
  set (priority := map (fun p => nth p x 0) peaks) in *.
  destruct (@keep_flags_spec peaks priority distance Hsorted)
    as [Hlen Hsep]; [unfold priority; apply length_map|].
  destruct (@select_flagged_In _ _ _ Hp) as (j & Hj & Hjp & Hjk).
  split; [rewrite <- Hjp; apply nth_In; exact Hj|].
  intros q Hq Hne.
  destruct (@select_flagged_In _ _ _ Hq) as (t & Ht & Htq & Htk).
  assert (Htj : t <> j) by congruence.
  specialize (Hsep j t Hj Ht Htj Hjk Htk).
  unfold too_close in Hsep. rewrite Hjp, Htq in Hsep.
  eapply Qle_trans; [apply Qle_ceiling|].
  unfold ofZ. rewrite <- Zle_Qle. lia.
Qed.

Lemma find_peaks_spec (x : list Q) (height distance : Q) (peaks : list nat) :
  find_peaks x height distance = Some peaks ->
  1 <= distance /\
  forall p, In p peaks ->
    local_maximum x p /\
    height <= nth p x 0 /\
    forall q, In q peaks -> q <> p ->
              distance <= ofZ (Z.abs (Z.of_nat p - Z.of_nat q)).
Proof.
  unfold find_peaks. destruct (Qlt_bool distance 1) eqn:E; [discriminate|].
  intros H. injection H as <-.
  split; [apply Qlt_bool_false_iff; exact E|].
  destruct (local_maxima_1d_spec x) as [Hmax Hsorted].
  assert (Hs : StronglySorted lt (select_by_height x height (local_maxima_1d x)))
    by (apply StronglySorted_filter; exact Hsorted).
  intros p Hp.
  destruct (@select_by_peak_distance_spec x distance _ Hs p Hp) as [Hin Hsep].
  apply select_by_height_spec in Hin. destruct Hin as [Hin Hh].
  rewrite Forall_forall in Hmax.
  repeat split; [apply Hmax; exact Hin | exact Hh | exact Hsep].
Qed.

(** [find_peaks] fails exactly when the requested distance is below one. *)
Lemma find_peaks_error (x : list Q) (height distance : Q) :
  find_peaks x height distance = None <-> distance < 1.
Proof.
  unfold find_peaks. destruct (Qlt_bool distance 1) eqn:E.
  - apply Qlt_bool_iff in E. tauto.
  - apply Qlt_bool_false_iff in E. split; [discriminate|].
    intros H. exfalso. exact (Qlt_not_le _ _ H E).
Qed.

(** ** Clustering by angle *)

Lemma collect_candidates_In (nrm : point -> Q) (atn2 : Z -> Z -> Q)
      (points : list point) (c : point) (r : Q) (k : candidate) :
  In k (collect_candidates nrm atn2 points c r) <->
  In (pt k) points /\
  k = {| pt := pt k;
         angle := atn2 (py (pt k) - py c)%Z (px (pt k) - px c)%Z;
         dist := nrm (vsub (pt k) c) |} /\
  r * (3 # 2) < nrm (vsub (pt k) c) /\
  ofZ (py (pt k)) < ofZ (py c) + r * (1 # 2).
Proof.
  unfold collect_candidates. rewrite in_flat_map. split.
  - intros (p & Hp & Hk).
    destruct (Qlt_bool (r * (3 # 2)) (nrm (vsub p c))) eqn:E1; [|destruct Hk].
    destruct (Qlt_bool (ofZ (py p)) (ofZ (py c) + r * (1 # 2))) eqn:E2;
      [|destruct Hk].
    destruct Hk as [<-|[]]. simpl.
    apply Qlt_bool_iff in E1, E2. repeat split; assumption.
  - intros (Hp & Hk & H1 & H2). exists (pt k). split; [exact Hp|].
    apply Qlt_bool_iff in H1, H2. rewrite H1, H2. left. symmetry. exact Hk.
Qed.

(** What a cluster contributes to [merged_fingers]. *)
Definition pick (cluster : list candidate) : list candidate :=
  match farthest cluster with
  | Some b => [b]
  | None => []
  end.

Lemma flush_pick (cluster merged : list candidate) :
  flush cluster merged = merged ++ pick cluster.
Proof.
  destruct cluster; simpl; [rewrite app_nil_r|]; reflexivity.
Qed.

Lemma cluster_walk_clusters (rest : list candidate) :
  forall prev cur merged,
    cluster_walk prev rest cur merged =
    merged ++ flat_map pick (clusters_walk prev rest cur).
Proof.
  induction rest as [|x rest IH]; intros prev cur merged; simpl.
  - rewrite app_nil_r. apply flush_pick.
  - destruct (Qlt_bool (angular_gap (angle prev) (angle x)) angle_thresh).
    + apply IH.
    + rewrite IH, flush_pick. simpl. rewrite <- app_assoc. reflexivity.
Qed.

Lemma clusters_walk_concat (rest : list candidate) :
  forall prev cur, concat (clusters_walk prev rest cur) = cur ++ rest.
Proof.
  induction rest as [|x rest IH]; intros prev cur; simpl.
  - rewrite app_nil_r. reflexivity.
  - destruct (Qlt_bool (angular_gap (angle prev) (angle x)) angle_thresh); simpl.
    + rewrite IH, <- app_assoc. reflexivity.
    + rewrite IH. reflexivity.
Qed.

Lemma clusters_walk_nonempty (rest : list candidate) :
  forall prev cur, cur <> [] ->
    Forall (fun cl => cl <> []) (clusters_walk prev rest cur).
Proof.
  induction rest as [|x rest IH]; intros prev cur Hcur; simpl.
  - constructor; [exact Hcur | constructor].
  - destruct (Qlt_bool (angular_gap (angle prev) (angle x)) angle_thresh).
    + apply IH. destruct cur; discriminate.
    + constructor; [exact Hcur|]. apply IH. discriminate.
Qed.

Lemma merge_by_angle_clusters (cands : list candidate) :
  merge_by_angle cands = flat_map pick (clusters cands).
Proof.
  unfold merge_by_angle, clusters.
  destruct (sort_by_key angle cands) as [|c0 rest]; [reflexivity|].
  rewrite cluster_walk_clusters. reflexivity.
Qed.

Lemma clusters_concat (cands : list candidate) :
  concat (clusters cands) = sort_by_key angle cands.
Proof.
  unfold clusters.
  destruct (sort_by_key angle cands) as [|c0 rest]; [reflexivity|].
  apply clusters_walk_concat.
Qed.

Lemma clusters_nonempty (cands : list candidate) :
  Forall (fun cl => cl <> []) (clusters cands).
Proof.
  unfold clusters.
  destruct (sort_by_key angle cands) as [|c0 rest]; [constructor|].
  apply clusters_walk_nonempty. discriminate.
Qed.

Lemma clusters_member (cands cl : list candidate) (m : candidate) :
  In cl (clusters cands) -> In m cl -> In m cands.
Proof.
  intros Hcl Hm.
  apply (py_sort_In (fun a b => Qle_bool (angle a) (angle b))).
  fold (sort_by_key angle cands). rewrite <- clusters_concat.
  apply in_concat. exists cl. split; assumption.
Qed.

Lemma pick_spec (cl : list candidate) (f : candidate) :
  In f (pick cl) ->
  farthest cl = Some f /\ In f cl /\ forall m, In m cl -> dist m <= dist f.
Proof.
  unfold pick. destruct cl as [|x l]; simpl; [intros []|].
  intros [<-|[]]. split; [reflexivity|]. split.
  - apply (max_by_In dist l x).
  - intros m Hm. apply max_by_greatest. exact Hm.
Qed.

Lemma merge_by_angle_spec (cands : list candidate) (f : candidate) :
  In f (merge_by_angle cands) ->
  exists cl, In cl (clusters cands) /\ farthest cl = Some f /\ In f cl /\
             forall m, In m cl -> dist m <= dist f.
Proof.
  rewrite merge_by_angle_clusters, in_flat_map.
  intros (cl & Hcl & Hf). exists cl. split; [exact Hcl|].
  apply pick_spec. exact Hf.
Qed.

Lemma merge_by_angle_nonempty (cands : list candidate) :
  cands <> [] -> merge_by_angle cands <> [].
Proof.
  intros Hne. unfold merge_by_angle.
  destruct (sort_by_key angle cands) as [|c0 rest] eqn:E.
  - exfalso. apply Hne.
    apply Permutation_nil. rewrite <- E. apply py_sort_perm.
  - rewrite cluster_walk_clusters. simpl.
    pose proof (clusters_walk_nonempty rest c0 (cur := [c0])) as H.
    destruct (clusters_walk c0 rest [c0]) as [|cl cls] eqn:Ecl.
    + pose proof (clusters_walk_concat rest c0 [c0]) as Hc.
      rewrite Ecl in Hc. discriminate.
    + simpl. assert (Hcl : cl <> []).
      { assert (HF : Forall (fun cl => cl <> []) (cl :: cls))
          by (apply H; discriminate).
        inversion HF; assumption. }
      destruct cl as [|x l]; [congruence|]. simpl. discriminate.
Qed.

(** ** [np.int32] *)

Lemma wrap32_small (z : Z) :
  (-2147483648 <= z < 2147483648)%Z -> wrap32 z = z.
Proof.
  intros H. unfold wrap32. rewrite Z.mod_small by lia. lia.
Qed.

Lemma wrap32_mod (z : Z) : (wrap32 z mod 4294967296 = z mod 4294967296)%Z.
Proof.
  unfold wrap32. rewrite Zminus_mod_idemp_l. f_equal. lia.
Qed.

Lemma wrap32_congr (x y : Z) :
  (x mod 4294967296 = y mod 4294967296)%Z -> wrap32 x = wrap32 y.
Proof.
  intros H. unfold wrap32.
  rewrite <- (Zplus_mod_idemp_l x), <- (Zplus_mod_idemp_l y), H. reflexivity.
Qed.

Lemma wrap32_square_mod (x : Z) :
  (wrap32 (wrap32 x ^ 2) mod 4294967296 = x ^ 2 mod 4294967296)%Z.
Proof.
  rewrite wrap32_mod, !Z.pow_2_r.
  rewrite (Z.mul_mod (wrap32 x) (wrap32 x)) by lia.
  rewrite wrap32_mod, <- Z.mul_mod by lia. reflexivity.
Qed.

(** The wrapped sum of wrapped squares is the wrapped square of the
    distance: the order in which the wrapping is done does not matter. *)
Lemma sq_dist_wrap (p q : point) : sq_dist p q = wrap32 (sq_len p q).
Proof.
  unfold sq_dist, sq_len. apply wrap32_congr.
  rewrite (Z.add_mod (wrap32 (wrap32 (px q - px p) ^ 2))
                     (wrap32 (wrap32 (py q - py p) ^ 2))) by lia.
  rewrite !wrap32_square_mod, <- Z.add_mod by lia. reflexivity.
Qed.

Lemma sq_len_nonneg (p q : point) : (0 <= sq_len p q)%Z.
Proof. unfold sq_len. nia. Qed.

Lemma sq_len_zero (p q : point) : sq_len p q = 0%Z <-> p = q.
Proof.
  unfold sq_len, px, py. destruct p as [x1 y1], q as [x2 y2]; cbn [fst snd].
  split.
  - intros H. assert (x2 - x1 = 0 /\ y2 - y1 = 0)%Z as [Hx Hy] by nia.
    f_equal; lia.
  - intros H. injection H as -> ->. rewrite !Z.sub_diag. reflexivity.
Qed.

Lemma sq_len_near (p q : point) : near p q -> (sq_len p q < 2147483648)%Z.
Proof.
  unfold near, sq_len. intros [Hx Hy].
  apply Z.abs_le in Hx. apply Z.abs_le in Hy. nia.
Qed.

Lemma sq_dist_near (p q : point) : near p q -> sq_dist p q = sq_len p q.
Proof.
  intros H. rewrite sq_dist_wrap. apply wrap32_small.
  pose proof (sq_len_nonneg p q). pose proof (sq_len_near H). lia.
Qed.

Lemma near_sym (p q : point) : near p q -> near q p.
Proof. unfold near. lia. Qed.

(** ** The triangle of a convexity defect *)

Section Triangle.
Local Open Scope R_scope.

Lemma side_near (p q : point) : near p q -> side p q = Some (len p q).
Proof.
  intros H. unfold side, len. rewrite (sq_dist_near H).
  destruct (Z.ltb_spec (sq_len p q) 0) as [Hlt|_]; [|reflexivity].
  pose proof (sq_len_nonneg p q). lia.
Qed.

Lemma len_nonneg (p q : point) : 0 <= len p q.
Proof. unfold len. apply sqrt_pos. Qed.

Lemma len_zero (p q : point) : len p q = 0 <-> p = q.
Proof.
  unfold len. split.
  - intros H. apply sq_len_zero. apply eq_IZR_R0.
    apply sqrt_eq_0; [|exact H]. apply IZR_le, sq_len_nonneg.
  - intros ->.
    replace (sq_len q q) with 0%Z by (symmetry; apply sq_len_zero; reflexivity).
    apply sqrt_0.
Qed.

Lemma len_sq (p q : point) : len p q ^ 2 = IZR (sq_len p q).
Proof.
  unfold len. apply pow2_sqrt. apply IZR_le, sq_len_nonneg.
Qed.

Lemma len_pos (p q : point) : p <> q -> 0 < len p q.
Proof.
  intros Hne. destruct (len_nonneg p q) as [H|H]; [exact H|].
  exfalso. apply Hne. apply len_zero. symmetry. exact H.
Qed.

Lemma numerator_twice_dot (start end_ far : point) :
  len start far ^ 2 + len far end_ ^ 2 - len start end_ ^ 2
  = IZR (twice_dot start end_ far).
Proof.
  rewrite !len_sq, <- plus_IZR, <- minus_IZR. f_equal.
  unfold sq_len, twice_dot. ring.
Qed.

Lemma cauchy_schwarz (start end_ far : point) :
  (twice_dot start end_ far * twice_dot start end_ far
   <= 4 * (sq_len start far * sq_len far end_))%Z.
Proof.
  unfold twice_dot, sq_len.
  set (a := (px start - px far)%Z). set (b := (py start - py far)%Z).
  set (c := (px end_ - px far)%Z). set (d := (py end_ - py far)%Z).
  replace (px far - px start)%Z with (- a)%Z by (unfold a; ring).
  replace (py far - py start)%Z with (- b)%Z by (unfold b; ring).
  rewrite !Z.pow_2_r.
  pose proof (Z.square_nonneg (a * d - b * c)) as Hsq.
  replace (4 * ((- a * - a + - b * - b) * (c * c + d * d)))%Z
    with (2 * (a * c + b * d) * (2 * (a * c + b * d))
          + 4 * ((a * d - b * c) * (a * d - b * c)))%Z by ring.
  lia.
Qed.

Lemma law_of_cosines_dot (start end_ far : point) :
  law_of_cosines start end_ far
  = IZR (twice_dot start end_ far) / (2 * len start far * len far end_).
Proof.
  unfold law_of_cosines. rewrite numerator_twice_dot. reflexivity.
Qed.

Lemma product_pos (start end_ far : point) :
  far <> start -> far <> end_ -> 0 < 2 * len start far * len far end_.
Proof.
  intros Hs He.
  assert (Hb : 0 < len start far) by (apply len_pos; congruence).
  assert (Hc : 0 < len far end_) by (apply len_pos; exact He).
  nra.
Qed.

Lemma law_of_cosines_bounds (start end_ far : point) :
  far <> start -> far <> end_ -> -1 <= law_of_cosines start end_ far <= 1.
Proof.
  intros Hs He. rewrite law_of_cosines_dot.
  set (n := IZR (twice_dot start end_ far)).
  set (y := 2 * len start far * len far end_).
  assert (Hy : 0 < y) by (apply product_pos; assumption).
  assert (Hsq : n * n <= y * y).
  { unfold y, n.
    replace (2 * len start far * len far end_ * (2 * len start far * len far end_))
      with (4 * (len start far ^ 2 * len far end_ ^ 2)) by ring.
    rewrite !len_sq, <- !mult_IZR. apply IZR_le. apply cauchy_schwarz. }
  assert (Hn : - y <= n <= y) by nra.
  assert (Hinv : 0 < / y) by (apply Rinv_0_lt_compat; exact Hy).
  assert (Hone : y * / y = 1) by (apply Rinv_r; lra).
  unfold Rdiv. split; nra.
Qed.

(** What line 73 computes, case by case. *)
Lemma defect_angle_spec (start end_ far : point) (angle : R) :
  let a := sqrt (IZR (sq_dist start end_)) in
  let b := sqrt (IZR (sq_dist start far)) in
  let c := sqrt (IZR (sq_dist far end_)) in
  defect_angle start end_ far = Some angle <->
  (0 <= sq_dist start end_)%Z /\ (0 <= sq_dist start far)%Z /\
  (0 <= sq_dist far end_)%Z /\
  2 * b * c <> 0 /\
  -1 <= (b ^ 2 + c ^ 2 - a ^ 2) / (2 * b * c) <= 1 /\
  angle = acos ((b ^ 2 + c ^ 2 - a ^ 2) / (2 * b * c)) * 57.2957795.
Proof.
  intros a b c.
  unfold defect_angle, np_arccos, cosine, dividend, divisor, side.
  destruct (Z.ltb_spec (sq_dist start end_) 0) as [Ha|Ha];
    destruct (Z.ltb_spec (sq_dist start far) 0) as [Hb|Hb];
    destruct (Z.ltb_spec (sq_dist far end_) 0) as [Hc|Hc];
    cbv beta iota;
    try (split; [discriminate | intros (H1 & H2 & H3 & _); lia]).
  fold a b c.
  destruct (Req_dec_T (2 * b * c) 0) as [E|E].
  { split; [discriminate | intros (_ & _ & _ & H & _); contradiction]. }
  destruct (Rle_dec (-1) ((b ^ 2 + c ^ 2 - a ^ 2) / (2 * b * c))) as [Hlo|Hlo].
  - destruct (Rle_dec ((b ^ 2 + c ^ 2 - a ^ 2) / (2 * b * c)) 1) as [Hhi|Hhi].
    + split.
      * intros H. injection H as <-. repeat split; assumption.
      * intros (_ & _ & _ & _ & _ & ->). reflexivity.
    + split; [discriminate | intros (_ & _ & _ & _ & [_ H] & _); contradiction].
  - split; [discriminate | intros (_ & _ & _ & _ & [H _] & _); contradiction].
Qed.

(** Without wrap-around, and with the deepest point away from both ends,
    the angle is the one of the triangle. *)
Lemma defect_angle_near (start end_ far : point) :
  no_wrap start end_ far -> far <> start -> far <> end_ ->
  defect_angle start end_ far
  = Some (acos (law_of_cosines start end_ far) * 57.2957795).
Proof.
  intros (Ha & Hb & Hc) Hs He.
  apply defect_angle_spec.
  rewrite (sq_dist_near Ha), (sq_dist_near Hb), (sq_dist_near Hc).
  fold (len start end_) (len start far) (len far end_).
  fold (law_of_cosines start end_ far).
  repeat split; try apply sq_len_nonneg.
  - pose proof (product_pos Hs He). lra.
  - apply law_of_cosines_bounds; assumption.
  - apply law_of_cosines_bounds; assumption.
Qed.

Lemma is_valley_spec (start end_ far : point) (d : Z) :
  is_valley start end_ far d = true <->
  exists a, defect_angle start end_ far = Some a /\ a <= 90 /\ (3000 < d)%Z.
Proof.
  unfold is_valley. destruct (defect_angle start end_ far) as [a|].
  - destruct (Rle_dec a 90) as [Hle|Hgt].
    + rewrite Z.gtb_ltb, Z.ltb_lt. split.
      * intros H. exists a. repeat split; assumption.
      * intros (a' & Ha & _ & Hd). exact Hd.
    + split; [discriminate|].
      intros (a' & Ha & Hle & _). injection Ha as <-. contradiction.
  - split; [discriminate|]. intros (a & Ha & _). discriminate.
Qed.

Lemma is_valley_near (start end_ far : point) (d : Z) :
  no_wrap start end_ far -> far <> start -> far <> end_ ->
  (is_valley start end_ far d = true <->
   acos (law_of_cosines start end_ far) * 57.2957795 <= 90 /\ (3000 < d)%Z).
Proof.
  intros Hn Hs He. rewrite is_valley_spec, (defect_angle_near Hn Hs He).
  split.
  - intros (a & Ha & Hle & Hd). injection Ha as <-. split; assumption.
  - intros [Hle Hd]. eexists. split; [reflexivity|]. split; assumption.
Qed.

End Triangle.

(** ** Narrow and wide defects *)

Section Angles.
Local Open Scope R_scope.

Lemma acos_narrow (x : R) : 1 / 2 <= x <= 1 -> acos x <= PI / 3.
Proof.
  intros Hx.
  pose proof (acos_bound x) as Hb.
  pose proof PI_RGT_0 as Hpi.
  apply cos_decr_0; try lra.
  rewrite cos_PI3, cos_acos by lra. lra.
Qed.

Lemma acos_wide (x : R) : -1 <= x <= -1 / 2 -> 2 * (PI / 3) <= acos x.
Proof.
  intros Hx.
  pose proof (acos_bound x) as Hb.
  pose proof PI_RGT_0 as Hpi.
  apply cos_decr_0; try lra.
  rewrite cos_2PI3, cos_acos by lra. lra.
Qed.

Lemma product_of_sides (start end_ far : point) :
  (len start far * len far end_) * (len start far * len far end_)
  = IZR (sq_len start far * sq_len far end_).
Proof.
  rewrite mult_IZR, <- !len_sq. ring.
Qed.

Lemma cosine_narrow (start end_ far : point) :
  narrow start end_ far -> 1 / 2 <= law_of_cosines start end_ far <= 1.
Proof.
  intros (Hs & He & Hpos & Hsq).
  split; [|apply law_of_cosines_bounds; assumption].
  rewrite law_of_cosines_dot.
  assert (Hb : 0 < len start far) by (apply len_pos; congruence).
  assert (Hc : 0 < len far end_) by (apply len_pos; exact He).
  set (bc := len start far * len far end_).
  assert (Hbc : 0 < bc) by (unfold bc; nra).
  set (t := IZR (twice_dot start end_ far)).
  assert (Ht : 0 <= t) by (unfold t; apply IZR_le; exact Hpos).
  assert (Hsq' : bc * bc <= t * t).
  { unfold bc, t. rewrite product_of_sides, <- mult_IZR. apply IZR_le. exact Hsq. }
  assert (Hle : bc <= t) by nra.
  replace (2 * len start far * len far end_) with (2 * bc) by (unfold bc; ring).
  assert (Hinv : 0 < / (2 * bc)) by (apply Rinv_0_lt_compat; lra).
  assert (Hone : (2 * bc) * / (2 * bc) = 1) by (apply Rinv_r; lra).
  unfold Rdiv. nra.
Qed.

Lemma cosine_wide (start end_ far : point) :
  wide start end_ far -> -1 <= law_of_cosines start end_ far <= -1 / 2.
Proof.
  intros (Hs & He & Hneg & Hsq).
  split; [apply law_of_cosines_bounds; assumption|].
  rewrite law_of_cosines_dot.
  assert (Hb : 0 < len start far) by (apply len_pos; congruence).
  assert (Hc : 0 < len far end_) by (apply len_pos; exact He).
  set (bc := len start far * len far end_).
  assert (Hbc : 0 < bc) by (unfold bc; nra).
  set (t := IZR (twice_dot start end_ far)).
  assert (Ht : t <= 0) by (unfold t; apply IZR_le; exact Hneg).
  assert (Hsq' : bc * bc <= t * t).
  { unfold bc, t. rewrite product_of_sides, <- mult_IZR. apply IZR_le. exact Hsq. }
  assert (Hle : t <= - bc) by nra.
  replace (2 * len start far * len far end_) with (2 * bc) by (unfold bc; ring).
  assert (Hinv : 0 < / (2 * bc)) by (apply Rinv_0_lt_compat; lra).
  assert (Hone : (2 * bc) * / (2 * bc) = 1) by (apply Rinv_r; lra).
  unfold Rdiv. nra.
Qed.

Lemma narrow_angle (start end_ far : point) :
  narrow start end_ far ->
  acos (law_of_cosines start end_ far) * 57.2957795 <= 90.
Proof.
  intros Hn. pose proof (cosine_narrow Hn) as Hc.
  pose proof (acos_narrow Hc) as Ha.
  pose proof (acos_bound (law_of_cosines start end_ far)) as Hb.
  pose proof PI_4 as Hpi. nra.
Qed.

Lemma is_valley_narrow (start end_ far : point) (d : Z) :
  no_wrap start end_ far -> narrow start end_ far -> (3000 < d)%Z ->
  is_valley start end_ far d = true.
Proof.
  intros Hw Hn Hd. pose proof (narrow_angle Hn) as Ha.
  destruct Hn as (Hs & He & _).
  apply (is_valley_near d Hw Hs He). split; assumption.
Qed.

Lemma is_valley_wide (start end_ far : point) (d : Z) :
  no_wrap start end_ far -> wide start end_ far ->
  is_valley start end_ far d = false.
Proof.
  intros Hw Hwd. pose proof (cosine_wide Hwd) as Hc.
  destruct Hwd as (Hs & He & _).
  apply not_true_is_false. intros H.
  apply (is_valley_near d Hw Hs He) in H. destruct H as [Hle _].
  pose proof (acos_wide Hc) as Hlow.
  pose proof PI2_3_2 as Hpi. nra.
Qed.

End Angles.

(** ** Counting the valleys *)

Lemma count_valleys_spec (max_contour : contour) (rows : list defect) :
  Forall (row_in_range max_contour) rows ->
  forall n0, count_valleys max_contour rows n0
             = Some (n0 + length (filter (qualifies max_contour) rows))%nat.
Proof.
  induction 1 as [|r rows (Hs & He & Hf) _ IH]; intros n0; simpl.
  - f_equal. lia.
  - unfold qualifies at 1.
    destruct (nth_error max_contour (d_start r)) as [start|] eqn:Es;
      [|apply nth_error_None in Es; lia].
    destruct (nth_error max_contour (d_end r)) as [end_|] eqn:Ee;
      [|apply nth_error_None in Ee; lia].
    destruct (nth_error max_contour (d_far r)) as [far|] eqn:Ef;
      [|apply nth_error_None in Ef; lia].
    rewrite IH. destruct (is_valley start end_ far (d_depth r)); simpl; f_equal; lia.
Qed.

Lemma count_valleys_ge (max_contour : contour) (rows : list defect) :
  forall n0 n, count_valleys max_contour rows n0 = Some n -> (n0 <= n)%nat.
Proof.
  induction rows as [|r rows IH]; intros n0 n H; simpl in H.
  - injection H as <-. lia.
  - destruct (nth_error max_contour (d_start r)); [|discriminate].
    destruct (nth_error max_contour (d_end r)); [|discriminate].
    destruct (nth_error max_contour (d_far r)); [|discriminate].
    apply IH in H. destruct (is_valley _ _ _ _) in H; lia.
Qed.

Lemma filter_none {A} (f : A -> bool) (l : list A) :
  (forall a, In a l -> f a = false) -> filter f l = [].
Proof.
  induction l as [|a l IH]; intros H; simpl; [reflexivity|].
  rewrite (H a) by (left; reflexivity).
  apply IH. intros b Hb. apply H. right. exact Hb.
Qed.

(** ** A curve that never reaches the height has no peak *)

Lemma qsum_below (l : list Q) (h : Q) :
  l <> [] -> (forall v, In v l -> v < h) ->
  qsum l < inject_Z (Z.of_nat (length l)) * h.
Proof.
  induction l as [|a l IH]; intros Hne Hall; [congruence|].
  assert (Ha : a < h) by (apply Hall; left; reflexivity).
  destruct l as [|b l].
  - simpl. ring_simplify. exact Ha.
  - assert (IH' : qsum (b :: l) < inject_Z (Z.of_nat (length (b :: l))) * h).
    { apply IH; [discriminate|]. intros v Hv. apply Hall. right. exact Hv. }
    change (qsum (a :: b :: l)) with (a + qsum (b :: l)).
    change (length (a :: b :: l)) with (S (length (b :: l))).
    rewrite Nat2Z.inj_succ. unfold Z.succ. rewrite inject_Z_plus.
    setoid_replace ((inject_Z (Z.of_nat (length (b :: l))) + inject_Z 1) * h)
      with (h + inject_Z (Z.of_nat (length (b :: l))) * h) by ring.
    apply Qplus_lt_le_compat; [exact Ha | apply Qlt_le_weak; exact IH'].
Qed.

Lemma wrap_index_bound (n : nat) (z : Z) : (0 < n)%nat -> (wrap_index n z < n)%nat.
Proof.
  intros Hn. unfold wrap_index.
  pose proof (Z.mod_pos_bound z (Z.of_nat n)) as H. lia.
Qed.

Lemma circular_mean_below (d : list Q) (h : Q) (i : nat) :
  d <> [] -> (forall v, In v d -> v < h) -> circular_mean d i < h.
Proof.
  intros Hne Hall. unfold circular_mean.
  set (w := map _ (seq 0 21)).
  assert (Hw : qsum w < inject_Z (Z.of_nat (length w)) * h).
  { apply qsum_below.
    - unfold w. simpl. discriminate.
    - intros v Hv. unfold w in Hv. apply in_map_iff in Hv.
      destruct Hv as (k & <- & _). apply Hall. apply nth_In.
      apply wrap_index_bound. destruct d; [congruence | simpl; lia]. }
  replace (length w) with 21%nat in Hw
    by (unfold w; rewrite length_map, length_seq; reflexivity).
  setoid_replace h with ((inject_Z (Z.of_nat 21) * h) * (1 # 21))
    by (simpl; field).
  apply Qmult_lt_compat_r; [reflexivity | exact Hw].
Qed.

Lemma smooth_below (d : list Q) (h : Q) :
  d <> [] -> (forall v, In v d -> v < h) ->
  forall i, (i < length d)%nat -> nth i (smooth d) 0 < h.
Proof.
  intros Hne Hall i Hi. rewrite smooth_nth by exact Hi.
  apply circular_mean_below; assumption.
Qed.

Lemma local_maximum_in_range (x : list Q) (p : nat) :
  local_maximum x p -> (p < length x)%nat.
Proof. intros (l & r & Hb & _). lia. Qed.

Lemma find_peaks_flat (x : list Q) (height distance : Q) :
  1 <= distance ->
  (forall i, (i < length x)%nat -> nth i x 0 < height) ->
  find_peaks x height distance = Some [].
Proof.
  intros Hd Hall. unfold find_peaks.
  apply Qlt_bool_false_iff in Hd. rewrite Hd. f_equal.
  replace (select_by_height x height (local_maxima_1d x)) with (@nil nat).
  - reflexivity.
  - symmetry. apply filter_none. intros p Hp.
    destruct (local_maxima_1d_spec x) as [Hmax _].
    rewrite Forall_forall in Hmax.
    pose proof (local_maximum_in_range (Hmax p Hp)) as Hlt.
    destruct (Qle_bool height (nth p x 0)) eqn:E; [|reflexivity].
    apply Qle_bool_iff in E. exfalso.
    exact (Qlt_not_le _ _ (Hall p Hlt) E).
Qed.

Lemma radial_peak_fingers_disk (nrm : point -> Q) (points : contour)
      (c : point) (palm_radius : Q) :
  (20 <= length points)%nat ->
  (forall p, In p points -> nrm (vsub p c) < palm_radius * (14 # 10)) ->
  radial_peak_fingers nrm points c palm_radius = Some [].
Proof.
  intros Hn Hall. unfold radial_peak_fingers, radial_peaks.
  set (d := map (fun p => nrm (vsub p c)) points).
  assert (Hlen : length d = length points) by (unfold d; apply length_map).
  rewrite find_peaks_flat; [reflexivity | |].
  - unfold Qle. simpl. lia.
  - intros i Hi.
    rewrite smooth_length in Hi by lia.
    apply smooth_below; [destruct d; [simpl in Hlen; lia | discriminate] | | exact Hi].
    intros v Hv. unfold d in Hv. apply in_map_iff in Hv.
    destruct Hv as (p & <- & Hp). apply Hall. exact Hp.
Qed.

(* ================================================================== *)
(** * Part III: the claims *)
(* ================================================================== *)

(** ** C1: the cap at five and the left-to-right order *)

(** C1, as stated, fails for the hull clustering script: on a hull with six
    well-separated tips [detect_fingers_polar.py] reports six fingers, in the
    order of their angles, which is not the order of their x-coordinates. *)
Lemma hull_cluster_uncapped :
  map pt (hull_cluster_fingers sample_norm sample_atan2 six_tips (200, 200)%Z 20)
  = [ (120, 140); (172, 104); (228, 104); (280, 140); (300, 200); (100, 200) ]%Z
  /\ (5 < length (hull_cluster_fingers sample_norm sample_atan2 six_tips
                                        (200, 200)%Z 20))%nat
  /\ ~ ascending_x
       (map pt (hull_cluster_fingers sample_norm sample_atan2 six_tips
                                     (200, 200)%Z 20)).
Proof.
  assert (E : map pt (hull_cluster_fingers sample_norm sample_atan2 six_tips
                                           (200, 200)%Z 20)
              = [ (120, 140); (172, 104); (228, 104); (280, 140); (300, 200);
                  (100, 200) ]%Z)
    by (vm_compute; reflexivity).
  split; [exact E|]. split.
  - rewrite <- (length_map pt), E. simpl. lia.
  - rewrite E. intros H.
    assert (Hx := @ascending_x_nth _ H 4%nat 5%nat).
    simpl in Hx. unfold px in Hx. simpl in Hx. lia.
Qed.

(** C1 (amended): in [detect_fingers_peaks.py] the final list holds at most
    five points and is in ascending order of x; it is a rearrangement of what
    the cap keeps of the filtered peaks; when more than five peaks pass the
    vertical filter exactly five are kept, each at least as far from the palm
    centre as every one that is dropped; otherwise all are kept. *)
Theorem radial_selector_cap (nrm : point -> Q) (points : contour) (c : point)
        (palm_radius : Q) (fingers : list point) :
  radial_peak_fingers nrm points c palm_radius = Some fingers ->
  (length fingers <= 5)%nat /\
  ascending_x fingers /\
  exists peaks,
    radial_peaks nrm points c palm_radius = Some peaks /\
    let filtered := filtered_peaks points c palm_radius peaks in
    Permutation fingers (keep_farthest nrm c filtered) /\
    ((length filtered <= 5)%nat -> Permutation fingers filtered) /\
    ((5 < length filtered)%nat ->
     length fingers = 5%nat /\
     exists dropped,
       Permutation (fingers ++ dropped) filtered /\
       forall k d, In k fingers -> In d dropped ->
                   nrm (vsub d c) <= nrm (vsub k c)).
Proof.
  unfold radial_peak_fingers.
  destruct (radial_peaks nrm points c palm_radius) as [peaks|]; [|discriminate].
  intros H. injection H as <-.
  set (filtered := filtered_peaks points c palm_radius peaks).
  pose proof (order_by_x_perm (keep_farthest nrm c filtered)) as Hperm.
  split; [rewrite (Permutation_length Hperm); apply keep_farthest_length|].
  split; [apply order_by_x_sorted|].
  exists peaks. split; [reflexivity|]. cbv zeta. fold filtered.
  split; [exact Hperm|]. split.
  - intros Hsmall. eapply perm_trans; [exact Hperm|].
    rewrite keep_farthest_small by exact Hsmall. apply Permutation_refl.
  - intros Hlarge.
    destruct (@keep_farthest_large nrm c _ Hlarge) as (Hlen & dropped & Hp & Hfar).
    split; [rewrite (Permutation_length Hperm); exact Hlen|].
    exists dropped. split.
    + eapply perm_trans; [|exact Hp].
      apply Permutation_app_tail. exact Hperm.
    + intros k d Hk Hd. apply Hfar; [|exact Hd].
      apply (Permutation_in _ Hperm). exact Hk.
Qed.

(** The star traced from its top tip: eight peaks pass the filter, the five
    farthest are returned from left to right. *)
Lemma radial_selector_cap_star :
  radial_peak_fingers approx_norm star_from_tip (200, 200)%Z 40
  = Some [ (160, 105); (197, 101); (203, 101); (246, 92); (279, 127) ]%Z
  /\ (length [ (160, 105); (197, 101); (203, 101); (246, 92); (279, 127) ]%Z <= 5)%nat
  /\ ascending_x [ (160, 105); (197, 101); (203, 101); (246, 92); (279, 127) ]%Z.
Proof.
  assert (E : radial_peak_fingers approx_norm star_from_tip (200, 200)%Z 40
              = Some [ (160, 105); (197, 101); (203, 101); (246, 92); (279, 127) ]%Z)
    by (vm_compute; reflexivity).
  split; [exact E|].
  destruct (@radial_selector_cap approx_norm star_from_tip (200, 200)%Z 40 _ E)
    as (Hlen & Hasc & _).
  split; [exact Hlen | exact Hasc].
Defined.

(** ** C2: the gap across the seam *)

(** For two angles in ascending order, both between [-pi] and [pi], the gap
    of lines 76-81 is the gap around the circle. *)
Lemma angular_gap_circular (a b : Q) :
  - math_pi <= a -> a <= b -> b <= math_pi ->
  angular_gap a b == circular_gap a b.
Proof.
  intros Ha Hab Hb. unfold angular_gap, circular_gap.
  assert (Hpi : 0 < math_pi) by reflexivity.
  destruct (Qlt_bool (b - a) (- math_pi)) eqn:E1.
  { apply Qlt_bool_iff in E1. exfalso. lra. }
  assert (Habs : Qabs (a - b) == b - a).
  { rewrite Qabs_neg by lra. ring. }
  rewrite Habs.
  destruct (Qlt_bool math_pi (b - a)) eqn:E2.
  - apply Qlt_bool_iff in E2.
    rewrite Qabs_neg by lra.
    rewrite Q.min_r by lra. ring.
  - apply Qlt_bool_false_iff in E2.
    rewrite Qabs_pos by lra.
    rewrite Q.min_l by lra. reflexivity.
Qed.

(** C2: three hull vertices survive the filters; two of them lie on either
    side of the seam, 0.02 rad apart around the circle, the third points
    straight up.  The walk starts at the vertex just below the seam, meets
    the upright one next and the vertex just above the seam last: the seam
    pair is reported as two fingers.  The same pair alone, without the
    upright candidate between them, is merged into one. *)
Theorem seam_group_split :
  map pt (hull_cluster_fingers sample_norm sample_atan2 seam_hull (200, 200)%Z 20)
  = [ (100, 199); (200, 100); (100, 201) ]%Z
  /\ circular_gap (sample_atan2 1 (-100)) (sample_atan2 (-1) (-100)) < angle_thresh
  /\ map (map pt)
         (clusters (collect_candidates sample_norm sample_atan2 seam_hull
                                       (200, 200)%Z 20))
     = [ [ (100, 199) ]; [ (200, 100) ]; [ (100, 201) ] ]%Z
  /\ map pt
         (merge_by_angle
            (filter (fun k => (px (pt k) =? 100)%Z)
                    (collect_candidates sample_norm sample_atan2 seam_hull
                                        (200, 200)%Z 20)))
     = [ (100, 199) ]%Z.
Proof.
  repeat split; vm_compute; reflexivity.
Qed.

(** ** C3: the polarity test *)

Lemma fix_polarity_spec (mask : plane) :
  fix_polarity mask =
  if ((top_left mask =? 255)%Z && (bottom_right mask =? 255)%Z)%bool
  then bitwise_not mask else mask.
Proof. reflexivity. Qed.

(** Four foreground corners do lead to the inversion. *)
Lemma four_corners_inverted (mask : plane) :
  four_corners_foreground mask = true -> fix_polarity mask = bitwise_not mask.
Proof.
  unfold four_corners_foreground, fix_polarity. intros H.
  apply andb_prop in H. destruct H as [H Hbr].
  apply andb_prop in H. destruct H as [H _].
  apply andb_prop in H. destruct H as [Htl _].
  rewrite Htl, Hbr. reflexivity.
Qed.

(** C3: on a mask whose top-left and bottom-right corners are foreground and
    whose other two corners are background, the four corners are not all
    foreground, and yet the mask is inverted: lines 31-32 look at two corners
    only. *)
Theorem polarity_two_corners :
  four_corners_foreground diagonal_mask = false
  /\ fix_polarity diagonal_mask = bitwise_not diagonal_mask
  /\ fix_polarity diagonal_mask <> diagonal_mask
  /\ silhouette bench_cv (Opaque (map (map (fun v => (v * 200 / 255)%Z)) diagonal_mask))
     = bitwise_not diagonal_mask.
Proof.
  repeat split; try (vm_compute; reflexivity).
  vm_compute. discriminate.
Qed.

(** ** C4: a mask without foreground *)

(** C4: when [findContours] finds nothing on a mask without foreground (as
    OpenCV does), an image whose cleaned mask has no foreground pixel makes
    both scripts stop at [not contours]; this end is none of the ends that
    deliver fingers, the empty list of fingers included. *)
Theorem blank_mask_fails (cv : cv2) (im : image) :
  (forall m, blank m -> findContours cv m = []) ->
  blank (morph_open cv (silhouette cv im)) ->
  detect_fingers_peaks cv (Some im) = NoContoursFound /\
  detect_fingers_polar cv (Some im) = NoContoursFound /\
  (forall fingers, detect_fingers_peaks cv (Some im) <> Detected fingers) /\
  (forall fingers, detect_fingers_polar cv (Some im) <> Detected fingers).
Proof.
  intros Hcv Hblank.
  assert (E1 : detect_fingers_peaks cv (Some im) = NoContoursFound).
  { unfold detect_fingers_peaks. rewrite (Hcv _ Hblank). reflexivity. }
  assert (E2 : detect_fingers_polar cv (Some im) = NoContoursFound).
  { unfold detect_fingers_polar. rewrite (Hcv _ Hblank). reflexivity. }
  repeat split; try assumption; intros fingers; rewrite ?E1, ?E2; discriminate.
Qed.

Lemma bench_cv_blank (m : plane) : blank m -> findContours bench_cv m = [].
Proof.
  intros Hb. simpl.
  replace (existsb (existsb (fun v => negb (v =? 0)%Z)) m) with false; [reflexivity|].
  symmetry. apply not_true_is_false. intros H.
  apply existsb_exists in H. destruct H as (row & Hrow & H).
  apply existsb_exists in H. destruct H as (v & Hv & H).
  rewrite (Hb row v Hrow Hv) in H. discriminate.
Qed.

Lemma transparent_image_blank :
  blank (morph_open bench_cv (silhouette bench_cv transparent_image)).
Proof.
  intros row v Hrow Hv. simpl in Hrow.
  repeat (destruct Hrow as [<-|Hrow];
          [simpl in Hv; repeat (destruct Hv as [<-|Hv]; [reflexivity|]); destruct Hv|]).
  destruct Hrow.
Qed.

(** A fully transparent image: no contour, no fingers. *)
Lemma blank_mask_fails_transparent :
  detect_fingers_peaks bench_cv (Some transparent_image) = NoContoursFound /\
  detect_fingers_polar bench_cv (Some transparent_image) = NoContoursFound.
Proof.
  destruct (@blank_mask_fails bench_cv transparent_image
              bench_cv_blank transparent_image_blank) as (H1 & H2 & _).
  split; assumption.
Defined.

(** ** C5: two peaks on one tip *)

(** C5: on the star traced from its top tip (200, 85), the script reports
    the positions 2 and 358 of the contour among its eight peaks, and not
    the position 0 of the tip itself.  The two positions are 4 steps apart
    around the closed contour, where a twentieth of its 360 points is 18:
    the separation is kept between positions of the array, not around the
    contour.  The two points, (197, 101) and (203, 101), are both among the
    five fingers returned for the seven tips. *)
Theorem seam_tip_twice :
  radial_peaks approx_norm star_from_tip (200, 200)%Z 40
  = Some [2; 23; 47; 68; 292; 313; 337; 358]%nat /\
  nth 0 star_from_tip (0, 0)%Z = (200, 85)%Z /\
  nth 2 star_from_tip (0, 0)%Z = (197, 101)%Z /\
  nth 358 star_from_tip (0, 0)%Z = (203, 101)%Z /\
  steps_around (length star_from_tip) 2 358 = 4%nat /\
  ofZ 4 < Z.of_nat (length star_from_tip) # 20 /\
  radial_peak_fingers approx_norm star_from_tip (200, 200)%Z 40
  = Some [ (160, 105); (197, 101); (203, 101); (246, 92); (279, 127) ]%Z.
Proof.
  split; [vm_compute; reflexivity|].
  split; [reflexivity|]. split; [reflexivity|]. split; [reflexivity|].
  split; [reflexivity|]. split; [reflexivity|].
  vm_compute; reflexivity.
Qed.

(** ** C6: a narrow valley that is not counted *)

(** C6: the notch is less than 60 degrees wide at its deepest point, so its
    angle by the law of cosines is below 90, and its depth exceeds 3000;
    yet the squares of line 69 and line 70 wrap around to negative numbers,
    the two sides and the angle are [nan], the row does not qualify and the
    estimate is one finger. *)
Theorem narrow_valley_lost :
  narrow (0, 0)%Z (0, 100)%Z (46400, 20)%Z /\
  (acos (law_of_cosines (0, 0)%Z (0, 100)%Z (46400, 20)%Z) * 57.2957795 <= 90)%R /\
  (3000 < 11878400)%Z /\
  sq_dist (0, 0)%Z (46400, 20)%Z = (-2142006896)%Z /\
  sq_dist (46400, 20)%Z (0, 100)%Z = (-2142000896)%Z /\
  side (0, 0)%Z (46400, 20)%Z = None /\
  side (46400, 20)%Z (0, 100)%Z = None /\
  defect_angle (0, 0)%Z (0, 100)%Z (46400, 20)%Z = None /\
  filter (qualifies notch_contour) notch_defects = [] /\
  estimated_fingers notch_contour (Some notch_defects) = Some 1%nat.
Proof.
  assert (Hn : narrow (0, 0)%Z (0, 100)%Z (46400, 20)%Z).
  { unfold narrow. split; [discriminate|]. split; [discriminate|].
    split; vm_compute; discriminate. }
  assert (Hb : side (0, 0)%Z (46400, 20)%Z = None) by (vm_compute; reflexivity).
  assert (Hc : side (46400, 20)%Z (0, 100)%Z = None) by (vm_compute; reflexivity).
  assert (Ha : defect_angle (0, 0)%Z (0, 100)%Z (46400, 20)%Z = None).
  { unfold defect_angle, cosine, dividend, divisor. rewrite Hb.
    destruct (side (0, 0)%Z (0, 100)%Z); reflexivity. }
  assert (Hq : filter (qualifies notch_contour) notch_defects = []).
  { unfold notch_defects, qualifies, notch_contour.
    cbn [filter nth_error d_start d_end d_far d_depth].
    unfold is_valley. rewrite Ha. reflexivity. }
  split; [exact Hn|]. split; [apply narrow_angle; exact Hn|].
  split; [lia|]. split; [vm_compute; reflexivity|].
  split; [vm_compute; reflexivity|].
  split; [exact Hb|]. split; [exact Hc|]. split; [exact Ha|].
  split; [exact Hq|].
  unfold estimated_fingers. rewrite count_valleys_spec.
  - rewrite Hq. reflexivity.
  - repeat constructor; simpl; lia.
Qed.

(** ** C7: no fingertip at or below the palm line *)

Lemma radial_fingers_filtered (nrm : point -> Q) (points : contour) (c : point)
      (palm_radius : Q) (fingers : list point) (f : point) :
  radial_peak_fingers nrm points c palm_radius = Some fingers ->
  In f fingers ->
  exists peaks, radial_peaks nrm points c palm_radius = Some peaks /\
                In f (filtered_peaks points c palm_radius peaks).
Proof.
  unfold radial_peak_fingers.
  destruct (radial_peaks nrm points c palm_radius) as [peaks|]; [|discriminate].
  intros H Hf. injection H as <-. exists peaks. split; [reflexivity|].
  apply (Permutation_in _ (order_by_x_perm _)) in Hf.
  apply keep_farthest_incl in Hf. exact Hf.
Qed.

Lemma filtered_peaks_In (points : contour) (c : point) (palm_radius : Q)
      (peaks : list nat) (f : point) :
  In f (filtered_peaks points c palm_radius peaks) <->
  (exists p_idx, In p_idx peaks /\ f = nth p_idx points (0, 0)%Z) /\
  ofZ (py f) < ofZ (py c) + palm_radius.
Proof.
  unfold filtered_peaks, below_palm_line.
  rewrite filter_In, in_map_iff, Qlt_bool_iff. split.
  - intros [(p & Hp & Hin) Hy]. split; [|exact Hy].
    exists p. split; [exact Hin | symmetry; exact Hp].
  - intros [(p & Hin & Hp) Hy]. split; [|exact Hy].
    exists p. split; [symmetry; exact Hp | exact Hin].
Qed.

Lemma hull_fingers_candidates (nrm : point -> Q) (atn2 : Z -> Z -> Q)
      (hull : list point) (c : point) (palm_radius : Q) (f : candidate) :
  In f (hull_cluster_fingers nrm atn2 hull c palm_radius) ->
  In f (collect_candidates nrm atn2 hull c palm_radius).
Proof.
  unfold hull_cluster_fingers. intros Hf.
  destruct (merge_by_angle_spec _ _ Hf) as (cl & Hcl & _ & Hin & _).
  exact (clusters_member _ _ _ Hcl Hin).
Qed.

(** C7: a fingertip that [detect_fingers_peaks.py] returns is a peak that
    passed the vertical filter, so its y-coordinate is below
    [cy + palm_radius]; a peak at or under that line is in no result.  A
    fingertip that [detect_fingers_polar.py] returns passed the stricter test
    against [cy + palm_radius * 0.5], and the palm radius is not negative. *)
Theorem fingertips_above_palm_line :
  (forall (nrm : point -> Q) (points : contour) (c : point) (palm_radius : Q)
          (fingers : list point),
      radial_peak_fingers nrm points c palm_radius = Some fingers ->
      forall f, In f fingers -> ofZ (py f) < ofZ (py c) + palm_radius) /\
  (forall (nrm : point -> Q) (atn2 : Z -> Z -> Q) (hull : list point)
          (c : point) (palm_radius : Q),
      0 <= palm_radius ->
      forall f, In f (hull_cluster_fingers nrm atn2 hull c palm_radius) ->
                ofZ (py (pt f)) < ofZ (py c) + palm_radius) /\
  (forall (cv : cv2) (im : image) (fingers : list point),
      detect_fingers_peaks cv (Some im) = Detected fingers ->
      let palm := palm_of cv (morph_open cv (silhouette cv im)) in
      forall f, In f fingers -> ofZ (py f) < ofZ (py (fst palm)) + snd palm) /\
  (forall (cv : cv2) (im : image) (fingers : list candidate),
      detect_fingers_polar cv (Some im) = Detected fingers ->
      let palm := palm_of cv (morph_open cv (silhouette cv im)) in
      0 <= snd palm ->
      forall f, In f fingers -> ofZ (py (pt f)) < ofZ (py (fst palm)) + snd palm).
Proof.
  assert (Hradial : forall nrm points c palm_radius fingers,
             radial_peak_fingers nrm points c palm_radius = Some fingers ->
             forall f, In f fingers -> ofZ (py f) < ofZ (py c) + palm_radius).
  { intros nrm points c r fingers H f Hf.
    destruct (radial_fingers_filtered _ _ _ _ _ H Hf) as (peaks & _ & Hin).
    apply filtered_peaks_In in Hin. tauto. }
  assert (Hpolar : forall nrm atn2 hull c palm_radius,
             0 <= palm_radius ->
             forall f, In f (hull_cluster_fingers nrm atn2 hull c palm_radius) ->
                       ofZ (py (pt f)) < ofZ (py c) + palm_radius).
  { intros nrm atn2 hull c r Hr f Hf.
    apply hull_fingers_candidates in Hf.
    apply collect_candidates_In in Hf. destruct Hf as (_ & _ & _ & Hy).
    lra. }
  split; [exact Hradial|]. split; [exact Hpolar|]. split.
  - intros cv im fingers H. cbv zeta.
    unfold detect_fingers_peaks in H.
    destruct (findContours cv (morph_open cv (silhouette cv im))) as [|c0 cs];
      [discriminate|].
    destruct (palm_of cv (morph_open cv (silhouette cv im))) as [c r]. simpl.
    destruct (radial_peak_fingers (norm cv) (max_by (contourArea cv) c0 cs) c r)
      as [fs|] eqn:E; [|discriminate].
    injection H as <-. exact (Hradial _ _ _ _ _ E).
  - intros cv im fingers H. cbv zeta.
    unfold detect_fingers_polar in H.
    destruct (findContours cv (morph_open cv (silhouette cv im))) as [|c0 cs];
      [discriminate|].
    destruct (palm_of cv (morph_open cv (silhouette cv im))) as [c r]. simpl.
    destruct (convexHull cv (max_by (contourArea cv) c0 cs)) as [hull|];
      [|discriminate].
    injection H as <-. intros Hr. exact (Hpolar _ _ _ _ _ Hr).
Qed.

(** The star and the six tips: every fingertip lies above the palm line. *)
Lemma fingertips_above_palm_line_samples :
  radial_peak_fingers approx_norm star_from_tip (200, 200)%Z 40
  = Some [ (160, 105); (197, 101); (203, 101); (246, 92); (279, 127) ]%Z
  /\ ofZ (py (246, 92)%Z) < ofZ (py (200, 200)%Z) + 40
  /\ Forall (fun f => ofZ (py (pt f)) < ofZ (py (200, 200)%Z) + 20)
            (hull_cluster_fingers sample_norm sample_atan2 six_tips (200, 200)%Z 20).
Proof.
  assert (E : radial_peak_fingers approx_norm star_from_tip (200, 200)%Z 40
              = Some [ (160, 105); (197, 101); (203, 101); (246, 92); (279, 127) ]%Z)
    by (vm_compute; reflexivity).
  destruct fingertips_above_palm_line as (Hradial & Hpolar & _).
  split; [exact E|]. split.
  - apply (Hradial approx_norm star_from_tip (200, 200)%Z 40 _ E).
    simpl. tauto.
  - apply Forall_forall. intros f Hf.
    apply (Hpolar sample_norm sample_atan2 six_tips (200, 200)%Z 20);
      [discriminate | exact Hf].
Defined.

(** ** C8: never fewer than one finger from the defects *)

Lemma is_valley_shallow (start end_ far : point) (d : Z) :
  (d <= 3000)%Z -> is_valley start end_ far d = false.
Proof.
  intros Hd. unfold is_valley.
  destruct (defect_angle start end_ far) as [a|]; [|reflexivity].
  destruct (Rle_dec a 90); [|reflexivity].
  rewrite Z.gtb_ltb. apply Z.ltb_ge. exact Hd.
Qed.

(** C8: whenever the defect script gets to its estimate, the estimate is at
    least 1; it is exactly 1 when [convexityDefects] reports nothing
    ([None]), when it reports no row, and when no row qualifies.  The radial
    script is different: on a contour of at least 20 points that all stay
    within 1.4 times the palm radius it finds no finger at all. *)
Theorem defect_estimate_positive :
  (forall (max_contour : contour) (defects : option (list defect)) (n : nat),
      estimated_fingers max_contour defects = Some n -> (1 <= n)%nat) /\
  (forall max_contour : contour, estimated_fingers max_contour None = Some 1%nat) /\
  (forall max_contour : contour, estimated_fingers max_contour (Some []) = Some 1%nat) /\
  (forall (max_contour : contour) (rows : list defect),
      Forall (row_in_range max_contour) rows ->
      (forall r, In r rows -> qualifies max_contour r = false) ->
      estimated_fingers max_contour (Some rows) = Some 1%nat) /\
  (forall (nrm : point -> Q) (points : contour) (c : point) (palm_radius : Q),
      (20 <= length points)%nat ->
      (forall p, In p points -> nrm (vsub p c) < palm_radius * (14 # 10)) ->
      radial_peak_fingers nrm points c palm_radius = Some []).
Proof.
  split; [|split; [|split; [|split]]].
  - intros max_contour [rows|] n H; simpl in H.
    + destruct (count_valleys max_contour rows 0) as [k|]; [|discriminate].
      injection H as <-. lia.
    + injection H as <-. lia.
  - reflexivity.
  - reflexivity.
  - intros max_contour rows Hrange Hnone. unfold estimated_fingers.
    rewrite (count_valleys_spec Hrange).
    rewrite (filter_none _ _ Hnone). reflexivity.
  - exact radial_peak_fingers_disk.
Qed.

Lemma wedge_shallow_row :
  qualifies wedge_contour {| d_start := 0; d_end := 1; d_far := 3; d_depth := 100 |}
  = false.
Proof.
  unfold qualifies. simpl. apply is_valley_shallow. lia.
Qed.

(** The wedge with its shallow row only, and the ring around a palm of
    radius 40. *)
Lemma defect_estimate_positive_samples :
  estimated_fingers wedge_contour
    (Some [ {| d_start := 0; d_end := 1; d_far := 3; d_depth := 100 |} ])
  = Some 1%nat
  /\ (1 <= 1)%nat
  /\ radial_peak_fingers approx_norm ring_contour (200, 200)%Z 40 = Some [].
Proof.
  destruct defect_estimate_positive as (Hpos & _ & _ & Hnone & Hdisk).
  assert (E : estimated_fingers wedge_contour
                (Some [ {| d_start := 0; d_end := 1; d_far := 3; d_depth := 100 |} ])
              = Some 1%nat).
  { apply Hnone.
    - repeat constructor; simpl; lia.
    - intros r [<-|[]]. exact wedge_shallow_row. }
  split; [exact E|]. split; [exact (Hpos _ _ _ E)|].
  apply Hdisk.
  - simpl. lia.
  - intros p Hp. simpl in Hp.
    repeat (destruct Hp as [<-|Hp]; [vm_compute; reflexivity|]).
    destruct Hp.
Defined.

(** ** C9: a divisor that is zero, or [nan], between distinct points *)

(** C9: the deepest point (65636, 300) differs from the start (100, 300) and
    from the end (65700, 20) of its defect, but the square of their distance
    65536 along the row wraps around to 0: the side [b] is 0, the divisor
    [2*b*c] is 0 and the angle is [nan].  On the outline 46400 pixels wide
    the three points differ as well; two of the squares wrap around to
    negative numbers, the sides [a] and [c] and the divisor are [nan], and
    the defect is not counted whatever its depth. *)
Theorem divisor_wraps :
  ((65636, 300) <> (100, 300) :> point)%Z /\
  ((65636, 300) <> (65700, 20) :> point)%Z /\
  sq_dist (100, 300)%Z (65636, 300)%Z = 0%Z /\
  (exists y, divisor (100, 300)%Z (65700, 20)%Z (65636, 300)%Z = Some y /\ y = 0%R) /\
  defect_angle (100, 300)%Z (65700, 20)%Z (65636, 300)%Z = None /\
  ((46397, 25) <> (46389, 5) :> point)%Z /\
  ((46397, 25) <> (30, 5) :> point)%Z /\
  sq_dist (46389, 5)%Z (30, 5)%Z = (-2145810415)%Z /\
  sq_dist (46389, 5)%Z (46397, 25)%Z = 464%Z /\
  sq_dist (46397, 25)%Z (30, 5)%Z = (-2145068207)%Z /\
  side (46389, 5)%Z (30, 5)%Z = None /\
  side (46397, 25)%Z (30, 5)%Z = None /\
  divisor (46389, 5)%Z (30, 5)%Z (46397, 25)%Z = None /\
  defect_angle (46389, 5)%Z (30, 5)%Z (46397, 25)%Z = None /\
  (forall d, is_valley (46389, 5)%Z (30, 5)%Z (46397, 25)%Z d = false) /\
  estimated_fingers banner_contour (Some banner_defects) = Some 1%nat.
Proof.
  assert (Hb : side (100, 300)%Z (65636, 300)%Z = Some (sqrt 0)).
  { unfold side.
    replace (sq_dist (100, 300)%Z (65636, 300)%Z) with 0%Z
      by (vm_compute; reflexivity).
    reflexivity. }
  assert (Hc : side (65636, 300)%Z (65700, 20)%Z = Some (sqrt 82496)).
  { unfold side.
    replace (sq_dist (65636, 300)%Z (65700, 20)%Z) with 82496%Z
      by (vm_compute; reflexivity).
    reflexivity. }
  assert (Hy : (2 * sqrt 0 * sqrt 82496 = 0)%R) by (rewrite sqrt_0; ring).
  assert (Ha' : side (46389, 5)%Z (30, 5)%Z = None) by (vm_compute; reflexivity).
  assert (Hc' : side (46397, 25)%Z (30, 5)%Z = None) by (vm_compute; reflexivity).
  assert (Hang : defect_angle (46389, 5)%Z (30, 5)%Z (46397, 25)%Z = None).
  { unfold defect_angle, cosine, dividend. rewrite Ha'. reflexivity. }
  split; [discriminate|]. split; [discriminate|].
  split; [vm_compute; reflexivity|].
  split.
  { exists (2 * sqrt 0 * sqrt 82496)%R. split; [|exact Hy].
    unfold divisor. rewrite Hb, Hc. reflexivity. }
  split.
  { unfold defect_angle, cosine, divisor. rewrite Hb, Hc.
    destruct (dividend (100, 300)%Z (65700, 20)%Z (65636, 300)%Z) as [n|];
      [|reflexivity].
    destruct (Req_dec_T (2 * sqrt 0 * sqrt 82496) 0) as [_|H];
      [reflexivity | contradiction]. }
  split; [discriminate|]. split; [discriminate|].
  split; [vm_compute; reflexivity|].
  split; [vm_compute; reflexivity|].
  split; [vm_compute; reflexivity|].
  split; [exact Ha'|]. split; [exact Hc'|].
  split.
  { unfold divisor. rewrite Hc'.
    destruct (side (46389, 5)%Z (46397, 25)%Z); reflexivity. }
  split; [exact Hang|].
  split.
  { intros d. unfold is_valley. rewrite Hang. reflexivity. }
  unfold estimated_fingers. rewrite count_valleys_spec.
  - unfold banner_defects, qualifies, banner_contour.
    cbn [filter nth_error d_start d_end d_far d_depth].
    unfold is_valley. rewrite Hang. reflexivity.
  - repeat constructor; simpl; lia.
Qed.

(** ** C10: one fingertip per cluster, the farthest *)

(** C10: the fingers that [detect_fingers_polar.py] reports are the farthest
    members of the clusters of the walk, one per cluster and in order; the
    clusters are not empty and, put end to end, are the surviving hull
    vertices in order of angle; so every finger is a surviving vertex, at
    least as far from the palm centre as every member of its cluster, and
    there is at least one finger as soon as one vertex survives. *)
Theorem cluster_farthest (nrm : point -> Q) (atn2 : Z -> Z -> Q)
        (hull : list point) (c : point) (palm_radius : Q) :
  let candidates := collect_candidates nrm atn2 hull c palm_radius in
  let fingers := hull_cluster_fingers nrm atn2 hull c palm_radius in
  (candidates <> [] -> fingers <> []) /\
  map Some fingers = map farthest (clusters candidates) /\
  Forall (fun cl => cl <> []) (clusters candidates) /\
  concat (clusters candidates) = sort_by_key angle candidates /\
  (forall f, In f fingers ->
     exists cl, In cl (clusters candidates) /\ In f cl /\
                forall m, In m cl -> dist m <= dist f) /\
  (forall f, In f fingers -> In f candidates /\ In (pt f) hull).
Proof.
  cbv zeta. unfold hull_cluster_fingers.
  set (candidates := collect_candidates nrm atn2 hull c palm_radius).
  split; [apply merge_by_angle_nonempty|].
  split.
  { rewrite merge_by_angle_clusters.
    pose proof (clusters_nonempty candidates) as Hne.
    induction Hne as [|cl cls Hcl _ IH]; [reflexivity|].
    destruct cl as [|x l]; [congruence|].
    simpl. f_equal. exact IH. }
  split; [apply clusters_nonempty|].
  split; [apply clusters_concat|].
  split.
  - intros f Hf.
    destruct (merge_by_angle_spec _ _ Hf) as (cl & Hcl & _ & Hin & Hfar).
    exists cl. repeat split; assumption.
  - intros f Hf.
    assert (Hc : In f candidates).
    { destruct (merge_by_angle_spec _ _ Hf) as (cl & Hcl & _ & Hin & _).
      exact (clusters_member _ _ _ Hcl Hin). }
    split; [exact Hc|].
    apply collect_candidates_In in Hc. tauto.
Qed.

(** The six tips: six clusters of one vertex each. *)
Lemma cluster_farthest_six_tips :
  collect_candidates sample_norm sample_atan2 six_tips (200, 200)%Z 20 <> [] /\
  hull_cluster_fingers sample_norm sample_atan2 six_tips (200, 200)%Z 20 <> [].
Proof.
  assert (Hne : collect_candidates sample_norm sample_atan2 six_tips (200, 200)%Z 20
                <> []) by (vm_compute; discriminate).
  split; [exact Hne|].
  exact (proj1 (cluster_farthest sample_norm sample_atan2 six_tips (200, 200)%Z 20)
               Hne).
Defined.

(* ================================================================== *)
(** * Part IV: further properties of the scripts *)
(* ================================================================== *)

(** ** [detect_fingers_v2.py]: the greedy choice of hull points *)

Lemma StronglySorted_snoc {A} (R : A -> A -> Prop) (l : list A) (x : A) :
  StronglySorted R l -> (forall y, In y l -> R y x) ->
  StronglySorted R (l ++ [x]).
Proof.
  induction 1 as [|a l Hs IH Ha]; intros Hx; simpl.
  - constructor; constructor.
  - constructor.
    + apply IH. intros y Hy. apply Hx. right. exact Hy.
    + rewrite Forall_forall in *. intros y Hy.
      apply in_app_or in Hy. destruct Hy as [Hy|[<-|[]]].
      * apply Ha. exact Hy.
      * apply Hx. left. reflexivity.
Qed.

Lemma StronglySorted_remove {A} (R : A -> A -> Prop) (l1 l2 : list A) (x : A) :
  StronglySorted R (l1 ++ x :: l2) -> StronglySorted R (l1 ++ l2).
Proof.
  induction l1 as [|a l1 IH]; simpl; intros H.
  - inversion H; assumption.
  - inversion H as [|a' l' Hs Ha]; subst. constructor.
    + apply IH. exact Hs.
    + rewrite Forall_forall in *. intros y Hy. apply Ha.
      apply in_app_or in Hy. apply in_or_app.
      destruct Hy as [Hy|Hy]; [left | right; right]; exact Hy.
Qed.

Lemma is_new_finger_spec (nrm : point -> Q) (min_distance : Q)
      (filtered : list point) (p : point) :
  is_new_finger nrm min_distance filtered p = true <->
  forall fp, In fp filtered -> min_distance <= nrm (vsub p fp).
Proof.
  unfold is_new_finger. rewrite negb_true_iff. split.
  - intros H fp Hfp. apply Qlt_bool_false_iff.
    destruct (Qlt_bool (nrm (vsub p fp)) min_distance) eqn:E; [|reflexivity].
    assert (Hex : existsb (fun fp => Qlt_bool (nrm (vsub p fp)) min_distance)
                          filtered = true).
    { apply existsb_exists. exists fp. split; assumption. }
    congruence.
  - intros H. apply not_true_is_false. intros Hex.
    apply existsb_exists in Hex. destruct Hex as (fp & Hfp & Hlt).
    apply Qlt_bool_iff in Hlt.
    exact (Qlt_not_le _ _ Hlt (H fp Hfp)).
Qed.

Lemma robust_admissible_spec (nrm : point -> Q) (c : point) (max_dist : Q)
      (p : point) :
  robust_admissible nrm c max_dist p = true <->
  max_dist * (12 # 10) < nrm (vsub p c) /\
  ofZ (py p) < ofZ (py c) + max_dist * (1 # 2).
Proof.
  unfold robust_admissible. rewrite andb_true_iff, !Qlt_bool_iff. reflexivity.
Qed.

Section RobustLoop.

Variable nrm : point -> Q.
Variable c : point.
Variable max_dist : Q.

Let loop := robust_loop nrm c max_dist.
Let ok := robust_admissible nrm c max_dist.
Let apart (f g : point) : Prop := max_dist * (1 # 2) <= nrm (vsub g f).

Lemma robust_loop_step (p : point) (points filtered : list point) :
  loop (p :: points) filtered =
  if (ok p && is_new_finger nrm (max_dist * (1 # 2)) filtered p)%bool
  then loop points (filtered ++ [p])
  else loop points filtered.
Proof.
  unfold loop, ok, robust_admissible. simpl.
  destruct (Qlt_bool (max_dist * (12 # 10)) (nrm (vsub p c)));
    destruct (Qlt_bool (ofZ (py p)) (ofZ (py c) + max_dist * (1 # 2)));
    reflexivity.
Qed.

Lemma robust_loop_sorted (R : point -> point -> Prop) (points : list point) :
  forall filtered,
    StronglySorted R (filtered ++ points) ->
    StronglySorted R (loop points filtered).
Proof.
  induction points as [|p points IH]; intros filtered Hs.
  - rewrite app_nil_r in Hs. exact Hs.
  - rewrite robust_loop_step.
    destruct (ok p && is_new_finger nrm (max_dist * (1 # 2)) filtered p)%bool.
    + apply IH. rewrite <- app_assoc. exact Hs.
    + apply IH. eapply StronglySorted_remove. exact Hs.
Qed.

Lemma robust_loop_keeps (points : list point) :
  forall filtered f, In f filtered -> In f (loop points filtered).
Proof.
  induction points as [|p points IH]; intros filtered f Hf; [exact Hf|].
  rewrite robust_loop_step.
  destruct (ok p && is_new_finger nrm (max_dist * (1 # 2)) filtered p)%bool.
  - apply IH. apply in_or_app. left. exact Hf.
  - apply IH. exact Hf.
Qed.

Lemma robust_loop_sound (points : list point) :
  forall filtered f, In f (loop points filtered) ->
    In f filtered \/ (In f points /\ ok f = true).
Proof.
  induction points as [|p points IH]; intros filtered f Hf; [left; exact Hf|].
  rewrite robust_loop_step in Hf.
  destruct (ok p && is_new_finger nrm (max_dist * (1 # 2)) filtered p)%bool eqn:E.
  - apply andb_prop in E. destruct E as [Hok _].
    destruct (IH _ _ Hf) as [H|[H1 H2]].
    + apply in_app_or in H. destruct H as [H|[<-|[]]].
      * left. exact H.
      * right. split; [left; reflexivity | exact Hok].
    + right. split; [right; exact H1 | exact H2].
  - destruct (IH _ _ Hf) as [H|[H1 H2]].
    + left. exact H.
    + right. split; [right; exact H1 | exact H2].
Qed.

Lemma robust_loop_apart (points : list point) :
  forall filtered,
    StronglySorted apart filtered ->
    StronglySorted apart (loop points filtered).
Proof.
  induction points as [|p points IH]; intros filtered Hs; [exact Hs|].
  rewrite robust_loop_step.
  destruct (ok p && is_new_finger nrm (max_dist * (1 # 2)) filtered p)%bool eqn:E.
  - apply andb_prop in E. destruct E as [_ Hnew].
    apply IH. apply StronglySorted_snoc; [exact Hs|].
    intros fp Hfp. unfold apart.
    exact (proj1 (is_new_finger_spec nrm _ filtered p) Hnew fp Hfp).
  - apply IH. exact Hs.
Qed.

Lemma robust_loop_covers (points : list point) :
  forall filtered p, In p points -> ok p = true ->
    In p (loop points filtered) \/
    exists f, In f (loop points filtered) /\ nrm (vsub p f) < max_dist * (1 # 2).
Proof.
  induction points as [|q points IH]; intros filtered p Hp Hok; [destruct Hp|].
  rewrite robust_loop_step.
  destruct Hp as [->|Hp].
  - rewrite Hok. simpl.
    destruct (is_new_finger nrm (max_dist * (1 # 2)) filtered p) eqn:E.
    + left. apply robust_loop_keeps. apply in_or_app. right. left. reflexivity.
    + right. unfold is_new_finger in E. apply negb_false_iff in E.
      apply existsb_exists in E. destruct E as (fp & Hfp & Hlt).
      exists fp. split; [apply robust_loop_keeps; exact Hfp|].
      apply Qlt_bool_iff. exact Hlt.
  - destruct (ok q && is_new_finger nrm (max_dist * (1 # 2)) filtered q)%bool;
      apply IH; assumption.
Qed.

End RobustLoop.

Lemma order_by_y_sorted (l : list point) : ascending_y (order_by_y l).
Proof.
  unfold ascending_y, order_by_y.
  eapply StronglySorted_ind with
    (P := fun l => StronglySorted (fun a b => (py a <= py b)%Z) l);
    [constructor | | apply py_sort_sorted].
  - intros a l0 _ IH Hall. constructor; [exact IH|].
    rewrite Forall_forall in *. intros z Hz.
    apply Z.leb_le. apply Hall. exact Hz.
  - intros a b H. apply Z.leb_le. apply Z.leb_gt in H. lia.
  - intros a b c H1 H2. apply Z.leb_le. apply Z.leb_le in H1, H2. lia.
Qed.

(** Every finger of [detect_fingers_v2.py] is a hull vertex that passes the
    two tests of lines 70-72, and the fingers come from top to bottom. *)
Theorem robust_fingers_sound (nrm : point -> Q) (hull : list point)
        (c : point) (max_dist : Q) :
  (forall f, In f (robust_fingers nrm hull c max_dist) ->
     In f hull /\
     max_dist * (12 # 10) < nrm (vsub f c) /\
     ofZ (py f) < ofZ (py c) + max_dist * (1 # 2)) /\
  ascending_y (robust_fingers nrm hull c max_dist).
Proof.
  unfold robust_fingers. split.
  - intros f Hf. apply robust_loop_sound in Hf.
    destruct Hf as [[]|[Hin Hok]].
    apply robust_admissible_spec in Hok.
    split; [|exact Hok].
    apply (py_sort_In (fun a b => (py a <=? py b)%Z)). exact Hin.
  - apply robust_loop_sorted. simpl. apply order_by_y_sorted.
Qed.

(** No finger of [detect_fingers_v2.py] is closer than half the palm radius
    to a finger reported before it. *)
Theorem robust_fingers_apart (nrm : point -> Q) (hull : list point)
        (c : point) (max_dist : Q) :
  StronglySorted (fun f g => max_dist * (1 # 2) <= nrm (vsub g f))
                 (robust_fingers nrm hull c max_dist).
Proof.
  unfold robust_fingers. apply robust_loop_apart. constructor.
Qed.

(** A hull vertex that passes the two tests and is not reported is closer
    than half the palm radius to a reported finger; so there is a finger as
    soon as one hull vertex passes the tests. *)
Theorem robust_fingers_cover (nrm : point -> Q) (hull : list point)
        (c : point) (max_dist : Q) (p : point) :
  In p hull ->
  robust_admissible nrm c max_dist p = true ->
  (In p (robust_fingers nrm hull c max_dist) \/
   exists f, In f (robust_fingers nrm hull c max_dist) /\
             nrm (vsub p f) < max_dist * (1 # 2)) /\
  robust_fingers nrm hull c max_dist <> [].
Proof.
  intros Hp Hok. unfold robust_fingers.
  assert (Hin : In p (order_by_y hull))
    by (apply (py_sort_In (fun a b => (py a <=? py b)%Z)); exact Hp).
  pose proof (robust_loop_covers nrm c max_dist (order_by_y hull) [] p Hin Hok)
    as Hcov.
  split; [exact Hcov|].
  intros Hnil. rewrite Hnil in Hcov.
  destruct Hcov as [[]|(f & [] & _)].
Qed.

Lemma robust_fingers_cover_six_tips :
  In (172, 104)%Z (robust_fingers approx_norm six_tips (200, 200)%Z 20) \/
  exists f, In f (robust_fingers approx_norm six_tips (200, 200)%Z 20) /\
            approx_norm (vsub (172, 104)%Z f) < 20 * (1 # 2).
Proof.
  apply (@robust_fingers_cover approx_norm six_tips (200, 200)%Z 20 (172, 104)%Z).
  - simpl. tauto.
  - vm_compute. reflexivity.
Defined.

(** ** [detect_fingers_peaks.py]: the smoothed curve *)

Lemma rotate_length (s : nat) (d : list Q) : length (rotate s d) = length d.
Proof.
  unfold rotate. rewrite length_app, length_skipn, length_firstn. lia.
Qed.

Lemma rotate_nth (s : nat) (d : list Q) (j : nat) :
  (s <= length d)%nat -> (j < length d)%nat ->
  nth j (rotate s d) 0 = nth (wrap_index (length d) (Z.of_nat j + Z.of_nat s)) d 0.
Proof.
  intros Hs Hj. unfold rotate.
  destruct (Nat.lt_ge_cases j (length d - s)) as [H|H].
  - rewrite app_nth1 by (rewrite length_skipn; exact H).
    rewrite nth_skipn. f_equal. symmetry.
    apply wrap_index_unique with (q := 0%Z); lia.
  - rewrite app_nth2 by (rewrite length_skipn; exact H).
    rewrite length_skipn, nth_firstn.
    assert (Hlt : (j - (length d - s) < s)%nat) by lia.
    apply Nat.ltb_lt in Hlt. rewrite Hlt. apply Nat.ltb_lt in Hlt.
    f_equal. symmetry.
    apply wrap_index_unique with (q := 1%Z); lia.
Qed.

Lemma wrap_index_shift (n : nat) (z s : Z) :
  (0 < n)%nat ->
  wrap_index n (Z.of_nat (wrap_index n z) + s) = wrap_index n (z + s).
Proof.
  intros Hn. unfold wrap_index.
  rewrite Z2Nat.id by (apply Z.mod_pos_bound; lia).
  rewrite Z.add_mod_idemp_l by lia. reflexivity.
Qed.

(** The start of the contour does not matter for the smoothing: reading the
    curve from position [s] on and smoothing gives the smoothed curve read
    from position [s] on. *)
Theorem smooth_rotate (d : list Q) (s i : nat) :
  (s <= length d)%nat -> (i < length d)%nat ->
  nth i (smooth (rotate s d)) 0
  == nth (wrap_index (length d) (Z.of_nat i + Z.of_nat s)) (smooth d) 0.
Proof.
  intros Hs Hi.
  assert (Hn : (0 < length d)%nat) by lia.
  rewrite smooth_nth by (rewrite rotate_length; exact Hi).
  rewrite smooth_nth by (apply wrap_index_bound; exact Hn).
  unfold circular_mean. rewrite rotate_length.
  assert (E : map (fun k => nth (wrap_index (length d)
                                   (Z.of_nat i + Z.of_nat k - 10))
                                (rotate s d) 0) (seq 0 21)
              = map (fun k => nth (wrap_index (length d)
                                     (Z.of_nat (wrap_index (length d)
                                                  (Z.of_nat i + Z.of_nat s))
                                      + Z.of_nat k - 10)) d 0) (seq 0 21)).
  { apply map_ext. intros k.
    rewrite rotate_nth by (try apply wrap_index_bound; lia).
    f_equal.
    rewrite wrap_index_shift by exact Hn.
    replace (Z.of_nat (wrap_index (length d) (Z.of_nat i + Z.of_nat s))
             + Z.of_nat k - 10)%Z
      with (Z.of_nat (wrap_index (length d) (Z.of_nat i + Z.of_nat s))
            + (Z.of_nat k - 10))%Z by ring.
    rewrite wrap_index_shift by exact Hn.
    f_equal. ring. }
  rewrite E. reflexivity.
Qed.

Lemma smooth_rotate_sample :
  nth 1 (smooth (rotate 3 [1; 3; 2; 3; 5])) 0
  == nth (wrap_index 5 (Z.of_nat 1 + Z.of_nat 3)) (smooth [1; 3; 2; 3; 5]) 0.
Proof.
  apply (@smooth_rotate [1; 3; 2; 3; 5] 3%nat 1%nat); simpl; lia.
Defined.

(** ** [detect_fingers_peaks.py]: the peaks *)

Lemma select_flagged_sorted (peaks : list nat) :
  StronglySorted lt peaks ->
  forall keep, StronglySorted lt (select_flagged peaks keep).
Proof.
  unfold select_flagged.
  induction 1 as [|a peaks Hs IH Ha]; intros keep; simpl.
  - constructor.
  - destruct keep as [|b keep]; simpl; [constructor|].
    destruct b; simpl; [|apply IH].
    constructor; [apply IH|].
    rewrite Forall_forall in *. intros q Hq. apply Ha.
    apply in_map_iff in Hq. destruct Hq as ((q' & k) & <- & Hq).
    apply filter_In in Hq. destruct Hq as [Hq _].
    apply in_combine_l in Hq. exact Hq.
Qed.

Lemma find_peaks_sorted (x : list Q) (height distance : Q) (peaks : list nat) :
  find_peaks x height distance = Some peaks -> StronglySorted lt peaks.
Proof.
  unfold find_peaks. destruct (Qlt_bool distance 1); [discriminate|].
  intros H. injection H as <-. unfold select_by_peak_distance.
  apply select_flagged_sorted. apply StronglySorted_filter.
  apply local_maxima_1d_spec.
Qed.

(** Positions in ascending order, every two of them at least [n/20] apart,
    all between [lo/20] and [hi/20]: their number is bounded. *)
Lemma gap_count (n : Z) (l : list nat) :
  StronglySorted lt l ->
  (forall p q, In p l -> In q l -> q <> p ->
               (n <= 20 * Z.abs (Z.of_nat p - Z.of_nat q))%Z) ->
  forall lo hi : Z,
    (forall p, In p l -> (lo <= 20 * Z.of_nat p <= hi)%Z) ->
    l <> [] ->
    (Z.of_nat (length l - 1) * n <= hi - lo)%Z.
Proof.
  induction 1 as [|a l Hs IH Ha]; intros Hgap lo hi Hrange Hne; [congruence|].
  destruct l as [|b l].
  - simpl. specialize (Hrange a (or_introl eq_refl)). lia.
  - assert (Htail : (Z.of_nat (length (b :: l) - 1) * n <= hi - (20 * Z.of_nat a + n))%Z).
    { apply IH.
      - intros p q Hp Hq Hpq. apply Hgap; [right; exact Hp | right; exact Hq | exact Hpq].
      - intros p Hp. split.
        + rewrite Forall_forall in Ha. specialize (Ha p Hp).
          assert (Hne' : a <> p) by lia.
          specialize (Hgap p a (or_intror Hp) (or_introl eq_refl) Hne'). lia.
        + apply Hrange. right. exact Hp.
      - discriminate. }
    specialize (Hrange a (or_introl eq_refl)).
    simpl length in *.
    replace (Z.of_nat (S (S (length l)) - 1))
      with (Z.of_nat (S (length l) - 1) + 1)%Z by lia.
    lia.
Qed.

(** The positions that [find_peaks] reports in [detect_fingers_peaks.py]
    come in ascending order, are never the first or the last point of the
    contour, and are at most 20. *)
Theorem radial_peaks_ordered (nrm : point -> Q) (points : contour) (c : point)
        (palm_radius : Q) (peaks : list nat) :
  radial_peaks nrm points c palm_radius = Some peaks ->
  StronglySorted lt peaks /\
  (forall p, In p peaks -> (1 <= p /\ p + 1 < length points)%nat) /\
  (length peaks <= 20)%nat.
Proof.
  unfold radial_peaks. intros H.
  set (sm := smooth (map (fun p => nrm (vsub p c)) points)) in *.
  pose proof (find_peaks_sorted _ _ _ H) as Hsorted.
  apply find_peaks_spec in H. destruct H as [Hd Hp].
  assert (Hn : (20 <= length points)%nat).
  { unfold Qle in Hd. simpl in Hd. lia. }
  assert (Hlen : length sm = length points).
  { unfold sm. rewrite smooth_length; rewrite length_map; [reflexivity | lia]. }
  assert (Hin : forall p, In p peaks -> (1 <= p /\ p + 1 < length points)%nat).
  { intros p Hpp. destruct (Hp p Hpp) as ((l & r & Hb & _) & _).
    rewrite Hlen in Hb. lia. }
  split; [exact Hsorted|]. split; [exact Hin|].
  destruct peaks as [|p0 peaks']; [simpl; lia|].
  assert (Hgap : forall p q, In p (p0 :: peaks') -> In q (p0 :: peaks') -> q <> p ->
                 (Z.of_nat (length points)
                  <= 20 * Z.abs (Z.of_nat p - Z.of_nat q))%Z).
  { intros p q Hpp Hq Hne.
    destruct (Hp p Hpp) as (_ & _ & Hsep).
    specialize (Hsep q Hq Hne). unfold Qle, ofZ in Hsep. simpl in Hsep. lia. }
  pose proof (@gap_count (Z.of_nat (length points)) (p0 :: peaks') Hsorted Hgap
                20%Z (20 * (Z.of_nat (length points) - 2))%Z) as Hc.
  assert (Hc' : (Z.of_nat (length (p0 :: peaks') - 1) * Z.of_nat (length points)
                 <= 20 * (Z.of_nat (length points) - 2) - 20)%Z).
  { apply Hc; [|discriminate].
    intros p Hpp. specialize (Hin p Hpp). lia. }
  simpl length in *.
  destruct (Nat.le_gt_cases (S (length peaks')) 20) as [Hle|Hgt]; [exact Hle|].
  exfalso.
  assert (20 <= Z.of_nat (S (length peaks') - 1))%Z by lia.
  nia.
Qed.

Lemma radial_peaks_ordered_star :
  radial_peaks approx_norm star_from_tip (200, 200)%Z 40
  = Some [2; 23; 47; 68; 292; 313; 337; 358]%nat
  /\ (length [2; 23; 47; 68; 292; 313; 337; 358]%nat <= 20)%nat.
Proof.
  assert (E : radial_peaks approx_norm star_from_tip (200, 200)%Z 40
              = Some [2; 23; 47; 68; 292; 313; 337; 358]%nat)
    by (vm_compute; reflexivity).
  split; [exact E|].
  exact (proj2 (proj2 (@radial_peaks_ordered approx_norm star_from_tip
                         (200, 200)%Z 40 _ E))).
Defined.

(** [detect_fingers_peaks.py] breaks off with the [ValueError] of
    [find_peaks] exactly on contours of fewer than 20 points, whatever their
    shape: then the requested distance [len(points) / 20] is below 1. *)
Theorem radial_short_contour :
  (forall (nrm : point -> Q) (points : contour) (c : point) (palm_radius : Q),
      radial_peak_fingers nrm points c palm_radius = None <->
      (length points < 20)%nat) /\
  (forall (cv : cv2) (im : image) (c0 : contour) (cs : list contour),
      findContours cv (morph_open cv (silhouette cv im)) = c0 :: cs ->
      (length (max_by (contourArea cv) c0 cs) < 20)%nat ->
      detect_fingers_peaks cv (Some im) = Raised ValueError).
Proof.
  assert (Hiff : forall nrm points c palm_radius,
             radial_peak_fingers nrm points c palm_radius = None <->
             (length points < 20)%nat).
  { intros nrm points c r. unfold radial_peak_fingers, radial_peaks.
    set (sm := smooth _). set (h := r * (14 # 10)).
    destruct (find_peaks sm h (Z.of_nat (length points) # 20)) as [peaks|] eqn:E.
    - split; [discriminate|]. intros Hlt.
      apply find_peaks_spec in E. destruct E as [Hd _].
      unfold Qle in Hd. simpl in Hd. lia.
    - split; [|reflexivity]. intros _.
      apply find_peaks_error in E. unfold Qlt in E. simpl in E. lia. }
  split; [exact Hiff|].
  intros cv im c0 cs Hc Hlen. unfold detect_fingers_peaks. rewrite Hc.
  destruct (palm_of cv (morph_open cv (silhouette cv im))) as [c r].
  rewrite (proj2 (Hiff (norm cv) (max_by (contourArea cv) c0 cs) c r) Hlen).
  reflexivity.
Qed.

(** A short contour: the 16 boundary points of a 5 by 5 square. *)
Lemma radial_short_contour_square :
  radial_peak_fingers approx_norm
    [ (0, 0); (0, 1); (0, 2); (0, 3); (0, 4); (1, 4); (2, 4); (3, 4);
      (4, 4); (4, 3); (4, 2); (4, 1); (4, 0); (3, 0); (2, 0); (1, 0) ]%Z
    (2, 2)%Z 3
  = None.
Proof.
  apply (proj1 radial_short_contour). simpl. lia.
Defined.

(** Every fingertip that [detect_fingers_peaks.py] returns is a point of the
    contour, the one at a position that [find_peaks] reported. *)
Theorem radial_fingers_on_contour (nrm : point -> Q) (points : contour)
        (c : point) (palm_radius : Q) (fingers : list point) (f : point) :
  radial_peak_fingers nrm points c palm_radius = Some fingers ->
  In f fingers ->
  In f points /\
  exists peaks p_idx,
    radial_peaks nrm points c palm_radius = Some peaks /\
    In p_idx peaks /\ nth_error points p_idx = Some f.
Proof.
  intros H Hf.
  destruct (radial_fingers_filtered _ _ _ _ _ H Hf) as (peaks & Hpeaks & Hin).
  apply filtered_peaks_In in Hin. destruct Hin as [(p_idx & Hp & ->) _].
  assert (Hlt : (p_idx < length points)%nat).
  { pose proof Hpeaks as Hs. unfold radial_peaks in Hs.
    apply find_peaks_spec in Hs. destruct Hs as [Hd Hall].
    destruct (Hall p_idx Hp) as (Hmax & _).
    apply local_maximum_in_range in Hmax.
    assert (Hn : (20 <= length points)%nat)
      by (unfold Qle in Hd; simpl in Hd; lia).
    rewrite smooth_length in Hmax by (rewrite length_map; lia).
    rewrite length_map in Hmax. exact Hmax. }
  split; [apply nth_In; exact Hlt|].
  exists peaks, p_idx. repeat split; try assumption.
  apply nth_error_nth'. exact Hlt.
Qed.

Lemma radial_fingers_on_contour_star :
  In (246, 92)%Z star_from_tip.
Proof.
  assert (E : radial_peak_fingers approx_norm star_from_tip (200, 200)%Z 40
              = Some [ (160, 105); (197, 101); (203, 101); (246, 92); (279, 127) ]%Z)
    by (vm_compute; reflexivity).
  apply (@radial_fingers_on_contour approx_norm star_from_tip (200, 200)%Z 40 _
           (246, 92)%Z E).
  simpl. tauto.
Defined.

(** ** [detect_fingers_peaks.py]: the cap and the order *)

Lemma py_sort_sorted_id {A} (le : A -> A -> bool) (l : list A) :
  StronglySorted (fun a b => le a b = true) l -> py_sort le l = l.
Proof.
  induction 1 as [|x l Hs IH Hx]; simpl; [reflexivity|].
  rewrite IH. destruct l as [|y l]; [reflexivity|]. simpl.
  rewrite Forall_forall in Hx. rewrite (Hx y) by (left; reflexivity).
  reflexivity.
Qed.

Lemma order_by_x_fixed (l : list point) : ascending_x l -> order_by_x l = l.
Proof.
  intros H. unfold order_by_x. apply py_sort_sorted_id.
  unfold ascending_x in H.
  induction H as [|x l Hs IH Hx]; constructor; [exact IH|].
  rewrite Forall_forall in *. intros z Hz. apply Z.leb_le. apply Hx. exact Hz.
Qed.

(** Lines 77-83 settle the result: capping and ordering a list that went
    through the cap and the ordering already changes nothing. *)
Theorem selector_idempotent (nrm : point -> Q) (c : point) (fingers : list point) :
  order_by_x (keep_farthest nrm c (order_by_x (keep_farthest nrm c fingers)))
  = order_by_x (keep_farthest nrm c fingers).
Proof.
  set (out := order_by_x (keep_farthest nrm c fingers)).
  assert (Hlen : (length out <= 5)%nat).
  { unfold out, order_by_x. rewrite py_sort_length. apply keep_farthest_length. }
  rewrite keep_farthest_small by exact Hlen.
  apply order_by_x_fixed. apply order_by_x_sorted.
Qed.

(** ** [detect_fingers_polar.py]: the clusters *)

Lemma angular_gap_circular_sample :
  angular_gap (-3) 3 == circular_gap (-3) 3.
Proof.
  apply (@angular_gap_circular (-3) 3); vm_compute; discriminate.
Defined.

Lemma angular_gap_ascending (p q : Q) :
  p <= q -> angle_thresh <= angular_gap p q -> p + angle_thresh <= q.
Proof.
  unfold angular_gap, angle_thresh. intros Hpq.
  assert (Hpi : 3 # 10 < math_pi) by reflexivity.
  destruct (Qlt_bool (q - p) (- math_pi)) eqn:E1.
  { apply Qlt_bool_iff in E1. lra. }
  destruct (Qlt_bool math_pi (q - p)) eqn:E2.
  - apply Qlt_bool_iff in E2. intros _. lra.
  - rewrite Qabs_pos by lra. intros H. lra.
Qed.

Section Spread.

Let le_angle (a b : candidate) : Prop := angle a <= angle b.
Let apart (f g : candidate) : Prop := angle f + angle_thresh <= angle g.
Let clusters_apart (A B : list candidate) : Prop :=
  forall a b, In a A -> In b B -> apart a b.

Lemma clusters_walk_apart (rest : list candidate) :
  forall prev cur,
    StronglySorted le_angle (prev :: rest) ->
    (forall a, In a cur -> angle a <= angle prev) ->
    StronglySorted clusters_apart (clusters_walk prev rest cur).
Proof.
  induction rest as [|x rest IH]; intros prev cur Hs Hcur; simpl.
  - constructor; constructor.
  - apply StronglySorted_inv in Hs. destruct Hs as [Hs Hprev].
    assert (Hpx : angle prev <= angle x).
    { rewrite Forall_forall in Hprev. apply Hprev. left. reflexivity. }
    destruct (Qlt_bool (angular_gap (angle prev) (angle x)) angle_thresh) eqn:E.
    + apply IH; [exact Hs|].
      intros a Ha. apply in_app_or in Ha. destruct Ha as [Ha|[<-|[]]].
      * eapply Qle_trans; [apply Hcur; exact Ha | exact Hpx].
      * apply Qle_refl.
    + apply Qlt_bool_false_iff in E.
      pose proof (angular_gap_ascending Hpx E) as Hgap.
      constructor.
      * apply IH; [exact Hs|]. intros a [<-|[]]. apply Qle_refl.
      * rewrite Forall_forall. intros B HB a b Ha Hb. unfold apart.
        assert (Hbx : angle x <= angle b).
        { assert (Hin : In b ([x] ++ rest)).
          { rewrite <- (clusters_walk_concat rest x [x]).
            apply in_concat. exists B. split; assumption. }
          destruct Hin as [<-|Hin]; [apply Qle_refl|].
          apply StronglySorted_inv in Hs. destruct Hs as [_ Hx].
          rewrite Forall_forall in Hx. apply Hx. exact Hin. }
        specialize (Hcur a Ha). lra.
Qed.

Lemma picks_apart (cls : list (list candidate)) :
  StronglySorted clusters_apart cls ->
  StronglySorted apart (flat_map pick cls).
Proof.
  induction 1 as [|cl cls Hs IH Hcl]; simpl; [constructor|].
  unfold pick at 1. destruct (farthest cl) as [b|] eqn:E; simpl; [|exact IH].
  constructor; [exact IH|].
  rewrite Forall_forall in *. intros g Hg.
  apply in_flat_map in Hg. destruct Hg as (B & HB & Hg).
  apply pick_spec in Hg. destruct Hg as (_ & Hg & _).
  apply (Hcl B HB); [|exact Hg].
  destruct cl as [|x l]; [discriminate|].
  injection E as <-. apply (max_by_In dist l x).
Qed.

Lemma merge_by_angle_apart (cands : list candidate) :
  StronglySorted apart (merge_by_angle cands).
Proof.
  rewrite merge_by_angle_clusters. apply picks_apart.
  unfold clusters.
  pose proof (sort_by_key_sorted angle cands) as Hs.
  destruct (sort_by_key angle cands) as [|c0 rest]; [constructor|].
  apply clusters_walk_apart; [exact Hs|].
  intros a [<-|[]]. apply Qle_refl.
Qed.

Lemma apart_count (l : list candidate) :
  StronglySorted apart l ->
  forall lo hi : Q,
    (forall f, In f l -> lo <= angle f /\ angle f <= hi) ->
    l <> [] ->
    inject_Z (Z.of_nat (length l - 1)) * angle_thresh <= hi - lo.
Proof.
  induction 1 as [|a l Hs IH Ha]; intros lo hi Hrange Hne; [congruence|].
  destruct (Hrange a (or_introl eq_refl)) as [Hlo Hhi].
  destruct l as [|b l].
  - change (inject_Z (Z.of_nat (length [a] - 1))) with 0. lra.
  - assert (Htail : inject_Z (Z.of_nat (length (b :: l) - 1)) * angle_thresh
                    <= hi - (angle a + angle_thresh)).
    { apply IH; [|discriminate].
      intros f Hf. split.
      - rewrite Forall_forall in Ha. apply Ha. exact Hf.
      - apply Hrange. right. exact Hf. }
    simpl length in *.
    replace (Z.of_nat (S (S (length l)) - 1))
      with (Z.of_nat (S (length l) - 1) + 1)%Z by lia.
    rewrite inject_Z_plus.
    change (inject_Z 1) with 1. lra.
Qed.

End Spread.

(** The fingers of [detect_fingers_polar.py] come in ascending order of
    angle, and every finger is at least 0.3 rad beyond the one before it. *)
Theorem polar_fingers_spread (nrm : point -> Q) (atn2 : Z -> Z -> Q)
        (hull : list point) (c : point) (palm_radius : Q) :
  StronglySorted (fun f g => angle f + angle_thresh <= angle g)
                 (hull_cluster_fingers nrm atn2 hull c palm_radius).
Proof.
  unfold hull_cluster_fingers. apply merge_by_angle_apart.
Qed.

(** When [atan2] delivers angles between [-pi] and [pi], as it does, the
    script never reports more than 21 fingers. *)
Theorem polar_fingers_bounded (nrm : point -> Q) (atn2 : Z -> Z -> Q)
        (hull : list point) (c : point) (palm_radius : Q) :
  (forall y x, - math_pi <= atn2 y x /\ atn2 y x <= math_pi) ->
  (length (hull_cluster_fingers nrm atn2 hull c palm_radius) <= 21)%nat.
Proof.
  intros Hrange.
  remember (hull_cluster_fingers nrm atn2 hull c palm_radius) as fingers eqn:E.
  destruct (Nat.le_gt_cases (length fingers) 21) as [Hle|Hgt]; [exact Hle|].
  exfalso.
  assert (Hcount : inject_Z (Z.of_nat (length fingers - 1)) * angle_thresh
                   <= math_pi - (- math_pi)).
  { apply apart_count.
    - rewrite E. apply merge_by_angle_apart.
    - intros f Hf. rewrite E in Hf. apply hull_fingers_candidates in Hf.
      apply collect_candidates_In in Hf. destruct Hf as (_ & Hk & _).
      rewrite Hk. simpl. apply Hrange.
    - destruct fingers; [simpl in Hgt; lia | discriminate]. }
  assert (Hk : (21 <= Z.of_nat (length fingers - 1))%Z) by lia.
  set (k := Z.of_nat (length fingers - 1)) in *.
  assert (Hq : inject_Z 21 * angle_thresh <= inject_Z k * angle_thresh).
  { apply Qmult_le_compat_r; [|discriminate].
    rewrite <- Zle_Qle. exact Hk. }
  assert (Hbad : math_pi - (- math_pi) < inject_Z 21 * angle_thresh)
    by reflexivity.
  lra.
Qed.

Lemma sample_atan2_range (y x : Z) :
  - math_pi <= sample_atan2 y x /\ sample_atan2 y x <= math_pi.
Proof.
  unfold sample_atan2, atan2_table, lookup.
  repeat match goal with
         | |- context [if ?b then _ else _] => destruct b
         end;
    split; vm_compute; discriminate.
Qed.

Lemma polar_fingers_bounded_six_tips :
  (length (hull_cluster_fingers sample_norm sample_atan2 six_tips (200, 200)%Z 20)
   <= 21)%nat.
Proof.
  exact (@polar_fingers_bounded sample_norm sample_atan2 six_tips (200, 200)%Z 20
           sample_atan2_range).
Defined.

Lemma collect_candidates_length (nrm : point -> Q) (atn2 : Z -> Z -> Q)
      (hull : list point) (c : point) (palm_radius : Q) :
  (length (collect_candidates nrm atn2 hull c palm_radius) <= length hull)%nat.
Proof.
  unfold collect_candidates.
  induction hull as [|p hull IH]; [simpl; lia|].
  simpl. rewrite length_app.
  destruct (Qlt_bool _ _); [destruct (Qlt_bool _ _)|]; simpl; lia.
Qed.

(** There are as many fingers as clusters, no more than surviving hull
    vertices, and no more of those than hull vertices. *)
Theorem polar_fingers_count (nrm : point -> Q) (atn2 : Z -> Z -> Q)
        (hull : list point) (c : point) (palm_radius : Q) :
  let candidates := collect_candidates nrm atn2 hull c palm_radius in
  length (hull_cluster_fingers nrm atn2 hull c palm_radius)
  = length (clusters candidates) /\
  (length (clusters candidates) <= length candidates)%nat /\
  (length candidates <= length hull)%nat.
Proof.
  cbv zeta. set (candidates := collect_candidates nrm atn2 hull c palm_radius).
  split; [|split].
  - unfold hull_cluster_fingers. fold candidates.
    rewrite merge_by_angle_clusters.
    pose proof (clusters_nonempty candidates) as Hne.
    induction Hne as [|cl cls Hcl _ IH]; [reflexivity|].
    destruct cl as [|x l]; [congruence|].
    simpl. f_equal. exact IH.
  - rewrite <- (py_sort_length (fun a b => Qle_bool (angle a) (angle b)) candidates).
    fold (sort_by_key angle candidates). rewrite <- clusters_concat.
    pose proof (clusters_nonempty candidates) as Hne.
    induction Hne as [|cl cls Hcl _ IH]; [simpl; lia|].
    destruct cl as [|x l]; [congruence|].
    simpl. rewrite length_app. lia.
  - apply collect_candidates_length.
Qed.

(** ** The mask *)

Lemma top_left_inverted (m : plane) :
  top_left m = 255%Z -> top_left (bitwise_not m) = 0%Z.
Proof.
  unfold top_left, bitwise_not.
  destruct m as [|[|v row] rows]; simpl; try discriminate.
  intros ->. reflexivity.
Qed.

(** After the polarity step the two corners it looks at are never both
    foreground, so a second pass leaves the mask alone. *)
Theorem fix_polarity_settles (mask : plane) :
  ~ (top_left (fix_polarity mask) = 255%Z /\
     bottom_right (fix_polarity mask) = 255%Z) /\
  fix_polarity (fix_polarity mask) = fix_polarity mask.
Proof.
  assert (H : ~ (top_left (fix_polarity mask) = 255%Z /\
                 bottom_right (fix_polarity mask) = 255%Z)).
  { unfold fix_polarity.
    destruct (top_left mask =? 255)%Z eqn:E1; simpl.
    - destruct (bottom_right mask =? 255)%Z eqn:E2; simpl.
      + apply Z.eqb_eq in E1. rewrite (top_left_inverted _ E1).
        intros [H _]. discriminate.
      + apply Z.eqb_neq in E2. tauto.
    - apply Z.eqb_neq in E1. tauto. }
  split; [exact H|].
  unfold fix_polarity at 1.
  destruct (top_left (fix_polarity mask) =? 255)%Z eqn:E1; [|reflexivity].
  destruct (bottom_right (fix_polarity mask) =? 255)%Z eqn:E2; [|reflexivity].
  apply Z.eqb_eq in E1, E2. tauto.
Qed.

Lemma threshold_binary_binary (t : Z) (src : plane) :
  binary (threshold_binary t src).
Proof.
  intros row v Hrow Hv. unfold threshold_binary in Hrow.
  apply in_map_iff in Hrow. destruct Hrow as (row0 & <- & _).
  apply in_map_iff in Hv. destruct Hv as (v0 & <- & _).
  destruct (v0 >? t)%Z; tauto.
Qed.

Lemma bitwise_not_binary (m : plane) : binary m -> binary (bitwise_not m).
Proof.
  intros Hb row v Hrow Hv. unfold bitwise_not in Hrow.
  apply in_map_iff in Hrow. destruct Hrow as (row0 & <- & Hrow0).
  apply in_map_iff in Hv. destruct Hv as (v0 & <- & Hv0).
  destruct (Hb row0 v0 Hrow0 Hv0) as [-> | ->]; [right | left]; reflexivity.
Qed.

Lemma map_map_same_shape (f : Z -> Z) (m : plane) :
  same_shape (map (map f) m) m.
Proof.
  unfold same_shape. rewrite map_map. apply map_ext. intros row.
  apply length_map.
Qed.

(** The mask the three scripts work on holds the values 0 and 255 only and
    has the rows and columns of the image. *)
Theorem silhouette_binary (cv : cv2) (img : image) :
  binary (silhouette cv img) /\
  same_shape (silhouette cv img)
             (match img with WithAlpha alpha => alpha | Opaque gray => gray end).
Proof.
  destruct img as [alpha|gray]; simpl.
  - split; [apply threshold_binary_binary | apply map_map_same_shape].
  - unfold fix_polarity.
    destruct ((top_left _ =? 255)%Z && (bottom_right _ =? 255)%Z)%bool.
    + split.
      * apply bitwise_not_binary, threshold_binary_binary.
      * unfold same_shape, bitwise_not. rewrite map_map_same_shape.
        apply map_map_same_shape.
    + split; [apply threshold_binary_binary | apply map_map_same_shape].
Qed.

(** ** [detect_fingers_v1.py]: how many valleys *)

Lemma count_valleys_le (max_contour : contour) (rows : list defect) :
  forall n0 n, count_valleys max_contour rows n0 = Some n ->
               (n <= n0 + length rows)%nat.
Proof.
  induction rows as [|r rows IH]; intros n0 n H; simpl in H.
  - injection H as <-. simpl. lia.
  - destruct (nth_error max_contour (d_start r)); [|discriminate].
    destruct (nth_error max_contour (d_end r)); [|discriminate].
    destruct (nth_error max_contour (d_far r)); [|discriminate].
    apply IH in H. simpl. destruct (is_valley _ _ _ _) in H; lia.
Qed.

(** The estimate of [detect_fingers_v1.py] never exceeds the number of
    defects by more than one. *)
Theorem defect_estimate_bounded (max_contour : contour) (rows : list defect)
        (n : nat) :
  estimated_fingers max_contour (Some rows) = Some n ->
  (n <= length rows + 1)%nat.
Proof.
  unfold estimated_fingers.
  destruct (count_valleys max_contour rows 0) as [k|] eqn:E; [|discriminate].
  intros H. injection H as <-. apply count_valleys_le in E. simpl in E. lia.
Qed.

Lemma wedge_shallow_estimate :
  estimated_fingers wedge_contour
    (Some [ {| d_start := 0; d_end := 1; d_far := 3; d_depth := 100 |} ])
  = Some 1%nat.
Proof.
  unfold estimated_fingers. simpl.
  rewrite is_valley_shallow by lia. reflexivity.
Qed.

Lemma defect_estimate_bounded_wedge :
  estimated_fingers wedge_contour
    (Some [ {| d_start := 0; d_end := 1; d_far := 3; d_depth := 100 |} ])
  = Some 1%nat
  /\ (1 <= 1 + 1)%nat.
Proof.
  split; [exact wedge_shallow_estimate|].
  exact (@defect_estimate_bounded wedge_contour _ 1%nat wedge_shallow_estimate).
Defined.

(** ** [detect_fingers_v1.py]: defects on outlines of ordinary size *)

(** While the three points of a defect are less than [2^15] pixels apart in
    each coordinate, nothing wraps around, and with the deepest point away
    from both ends the defect counts exactly when the angle of its triangle,
    by the law of cosines and in the script's degrees, is at most 90 and its
    depth exceeds 3000.  So a defect at most 60 degrees wide at its deepest
    point and deeper than 3000 counts as a valley; one at least 120 degrees
    wide does not, however deep; and a contour all of whose defects are
    narrow and deep is given one finger more than it has defects. *)
Theorem narrow_valleys_count :
  (forall start end_ far d,
      no_wrap start end_ far -> far <> start -> far <> end_ ->
      (is_valley start end_ far d = true <->
       (acos (law_of_cosines start end_ far) * 57.2957795 <= 90)%R /\
       (3000 < d)%Z)) /\
  (forall start end_ far d,
      no_wrap start end_ far -> narrow start end_ far -> (3000 < d)%Z ->
      is_valley start end_ far d = true) /\
  (forall start end_ far d,
      no_wrap start end_ far -> wide start end_ far ->
      is_valley start end_ far d = false) /\
  (forall (max_contour : contour) (rows : list defect),
      (forall r, In r rows ->
         exists start end_ far,
           nth_error max_contour (d_start r) = Some start /\
           nth_error max_contour (d_end r) = Some end_ /\
           nth_error max_contour (d_far r) = Some far /\
           no_wrap start end_ far /\
           narrow start end_ far /\ (3000 < d_depth r)%Z) ->
      estimated_fingers max_contour (Some rows) = Some (length rows + 1)%nat).
Proof.
  split; [intros start end_ far d; apply is_valley_near|].
  split; [exact is_valley_narrow|]. split; [exact is_valley_wide|].
  intros max_contour rows Hall.
  assert (Hrange : Forall (row_in_range max_contour) rows).
  { apply Forall_forall. intros r Hr.
    destruct (Hall r Hr) as (s & e & f & Hs & He & Hf & _).
    repeat split; apply nth_error_Some; congruence. }
  unfold estimated_fingers. rewrite (count_valleys_spec Hrange).
  replace (filter (qualifies max_contour) rows) with rows; [reflexivity|].
  symmetry. apply forallb_filter_id. apply forallb_forall. intros r Hr.
  destruct (Hall r Hr) as (s & e & f & Hs & He & Hf & Hw & Hn & Hd).
  unfold qualifies. rewrite Hs, He, Hf. apply is_valley_narrow; assumption.
Qed.

(** The comb: four narrow and deep valleys, five fingers. *)
Lemma narrow_valleys_count_comb :
  estimated_fingers comb_contour (Some comb_defects) = Some 5%nat.
Proof.
  apply (proj2 (proj2 (proj2 narrow_valleys_count)) comb_contour comb_defects).
  intros r Hr. simpl in Hr.
  destruct Hr as [<-|[<-|[<-|[<-|[]]]]]; simpl;
    eexists; eexists; eexists;
    (split; [reflexivity|]); (split; [reflexivity|]); (split; [reflexivity|]);
    (split; [unfold no_wrap, near; simpl; lia|]);
    (split; [|lia]);
    unfold narrow;
    (split; [discriminate|]); (split; [discriminate|]);
    split; vm_compute; discriminate.
Defined.

(** ** [detect_fingers_polar.py]: what a cluster is *)

(** Every member of the list is less than the threshold away from the one
    before it. *)
Fixpoint chained (l : list candidate) : Prop :=
  match l with
  | a :: (b :: _) as l' =>
      angular_gap (angle a) (angle b) < angle_thresh /\ chained l'
  | _ => True
  end.

Lemma chained_snoc (l : list candidate) (prev x : candidate) :
  chained l -> last l prev = prev ->
  angular_gap (angle prev) (angle x) < angle_thresh ->
  chained (l ++ [x]).
Proof.
  induction l as [|a l IH]; intros Hc Hlast Hgap; [exact I|].
  destruct l as [|b l].
  - simpl in Hlast. subst a. simpl. split; [exact Hgap | exact I].
  - destruct Hc as [Hab Hc]. split; [exact Hab|].
    apply IH; assumption.
Qed.

Lemma clusters_walk_chained (rest : list candidate) :
  forall prev cur,
    chained cur -> last cur prev = prev ->
    Forall chained (clusters_walk prev rest cur).
Proof.
  induction rest as [|x rest IH]; intros prev cur Hc Hlast; simpl.
  - constructor; [exact Hc | constructor].
  - destruct (Qlt_bool (angular_gap (angle prev) (angle x)) angle_thresh) eqn:E.
    + apply Qlt_bool_iff in E. apply IH.
      * apply chained_snoc with prev; assumption.
      * apply last_last.
    + constructor; [exact Hc|]. apply IH; [exact I | reflexivity].
Qed.

(** A cluster of [detect_fingers_polar.py] is a run of candidates, in order
    of angle, in which each one is less than 0.3 rad (as lines 76-81 measure
    it) from the one before it. *)
Theorem clusters_chained (candidates : list candidate) :
  Forall chained (clusters candidates).
Proof.
  unfold clusters.
  destruct (sort_by_key angle candidates) as [|c0 rest]; [constructor|].
  apply clusters_walk_chained; [exact I | reflexivity].
Qed.

(** ** [detect_fingers_v1.py]: the triangle does not depend on its place *)

(** The point [p] moved by the vector [v]. *)
Definition shift (v p : point) : point := ((px p + px v)%Z, (py p + py v)%Z).

Lemma sq_dist_shift (v p q : point) :
  sq_dist (shift v p) (shift v q) = sq_dist p q.
Proof.
  unfold sq_dist, shift, px, py. cbn [fst snd].
  replace (fst q + fst v - (fst p + fst v))%Z with (fst q - fst p)%Z by lia.
  replace (snd q + snd v - (snd p + snd v))%Z with (snd q - snd p)%Z by lia.
  reflexivity.
Qed.

Lemma sq_dist_sym (p q : point) : sq_dist p q = sq_dist q p.
Proof.
  rewrite !sq_dist_wrap. f_equal. unfold sq_len. ring.
Qed.

Lemma side_shift (v p q : point) : side (shift v p) (shift v q) = side p q.
Proof. unfold side. rewrite sq_dist_shift. reflexivity. Qed.

Lemma side_sym (p q : point) : side p q = side q p.
Proof. unfold side. rewrite sq_dist_sym. reflexivity. Qed.

(** Whether a defect counts depends on the shape of its triangle only:
    moving the three points by the same vector, or exchanging the start and
    the end of the defect, changes nothing. *)
Theorem is_valley_invariant (start end_ far v : point) (d : Z) :
  is_valley (shift v start) (shift v end_) (shift v far) d
  = is_valley start end_ far d /\
  is_valley end_ start far d = is_valley start end_ far d.
Proof.
  split.
  - unfold is_valley, defect_angle, cosine, dividend, divisor.
    rewrite !side_shift. reflexivity.
  - unfold is_valley, defect_angle, cosine, dividend, divisor.
    rewrite (side_sym end_ far), (side_sym far start), (side_sym end_ start).
    destruct (side start end_) as [a|], (side start far) as [b|],
             (side far end_) as [c|]; try reflexivity.
    replace (2 * c * b)%R with (2 * b * c)%R by ring.
    replace (c ^ 2 + b ^ 2 - a ^ 2)%R with (b ^ 2 + c ^ 2 - a ^ 2)%R by ring.
    reflexivity.
Qed.

(** ** [detect_fingers_polar.py]: moving the picture *)

(** A candidate whose point is moved by [v]; angle and distance are taken
    from the palm centre, which moves with it. *)
Definition shift_candidate (v : point) (k : candidate) : candidate :=
  {| pt := shift v (pt k); angle := angle k; dist := dist k |}.

Lemma vsub_shift (v p c : point) : vsub (shift v p) (shift v c) = vsub p c.
Proof.
  unfold vsub, shift, px, py. simpl. f_equal; lia.
Qed.

Lemma py_sort_map {A} (le : A -> A -> bool) (g : A -> A) (l : list A) :
  (forall a b, le (g a) (g b) = le a b) ->
  py_sort le (map g l) = map g (py_sort le l).
Proof.
  intros Hg. induction l as [|x l IH]; simpl; [reflexivity|].
  rewrite IH. generalize (py_sort le l). intros s.
  induction s as [|y s IHs]; simpl; [reflexivity|].
  rewrite Hg. destruct (le x y); simpl; [reflexivity|].
  rewrite IHs. reflexivity.
Qed.

Lemma max_by_map {A} (key : A -> Q) (g : A -> A) (l : list A) :
  (forall a, key (g a) = key a) ->
  forall x, max_by key (g x) (map g l) = g (max_by key x l).
Proof.
  intros Hg. induction l as [|y l IH]; intros x; simpl; [reflexivity|].
  rewrite !Hg. destruct (Qlt_bool (key x) (key y)); apply IH.
Qed.

Lemma cluster_walk_map (g : candidate -> candidate) (rest : list candidate) :
  (forall a, angle (g a) = angle a) -> (forall a, dist (g a) = dist a) ->
  forall prev cur merged,
    cluster_walk (g prev) (map g rest) (map g cur) (map g merged)
    = map g (cluster_walk prev rest cur merged).
Proof.
  intros Ha Hd.
  assert (Hflush : forall cur merged,
             flush (map g cur) (map g merged) = map g (flush cur merged)).
  { intros [|x l] merged; simpl; [reflexivity|].
    rewrite map_app. simpl. rewrite (max_by_map dist g l Hd). reflexivity. }
  induction rest as [|x rest IH]; intros prev cur merged; simpl.
  - apply Hflush.
  - rewrite !Ha.
    destruct (Qlt_bool (angular_gap (angle prev) (angle x)) angle_thresh).
    + rewrite <- IH, map_app. reflexivity.
    + rewrite <- IH, Hflush. reflexivity.
Qed.

Lemma merge_by_angle_map (g : candidate -> candidate) (l : list candidate) :
  (forall a, angle (g a) = angle a) -> (forall a, dist (g a) = dist a) ->
  merge_by_angle (map g l) = map g (merge_by_angle l).
Proof.
  intros Ha Hd. unfold merge_by_angle, sort_by_key.
  rewrite py_sort_map by (intros a b; rewrite !Ha; reflexivity).
  destruct (py_sort _ l) as [|c0 rest]; simpl; [reflexivity|].
  apply (cluster_walk_map g rest Ha Hd c0 [c0] []).
Qed.

Lemma collect_candidates_shift (nrm : point -> Q) (atn2 : Z -> Z -> Q)
      (v : point) (hull : list point) (c : point) (palm_radius : Q) :
  collect_candidates nrm atn2 (map (shift v) hull) (shift v c) palm_radius
  = map (shift_candidate v) (collect_candidates nrm atn2 hull c palm_radius).
Proof.
  unfold collect_candidates.
  induction hull as [|p hull IH]; [reflexivity|].
  cbn [map flat_map]. rewrite IH, map_app. f_equal.
  rewrite vsub_shift.
  destruct (Qlt_bool (palm_radius * (3 # 2)) (nrm (vsub p c))); [|reflexivity].
  assert (Hy : Qlt_bool (ofZ (py (shift v p)))
                        (ofZ (py (shift v c)) + palm_radius * (1 # 2))
               = Qlt_bool (ofZ (py p)) (ofZ (py c) + palm_radius * (1 # 2))).
  { unfold shift, py, ofZ. simpl. rewrite !inject_Z_plus.
    destruct (Qlt_bool (inject_Z (snd p)) _) eqn:E.
    - apply Qlt_bool_iff in E. apply Qlt_bool_iff. lra.
    - apply Qlt_bool_false_iff in E. apply Qlt_bool_false_iff. lra. }
  rewrite Hy.
  destruct (Qlt_bool (ofZ (py p)) (ofZ (py c) + palm_radius * (1 # 2)));
    [|reflexivity].
  simpl. unfold shift_candidate. simpl. f_equal. f_equal.
  unfold shift, px, py. simpl. f_equal; lia.
Qed.

(** Moving the hull and the palm centre by the same vector moves the
    fingers of [detect_fingers_polar.py] by that vector and changes nothing
    else: the same vertices are chosen, in the same order. *)
Theorem polar_fingers_shift (nrm : point -> Q) (atn2 : Z -> Z -> Q)
        (v : point) (hull : list point) (c : point) (palm_radius : Q) :
  hull_cluster_fingers nrm atn2 (map (shift v) hull) (shift v c) palm_radius
  = map (shift_candidate v) (hull_cluster_fingers nrm atn2 hull c palm_radius).
Proof.
  unfold hull_cluster_fingers.
  rewrite collect_candidates_shift.
  apply merge_by_angle_map; intros a; reflexivity.
Qed.
